(** * Autoencoder anomaly detector: preprocessing, model builder, evaluator, scorer

    A shallow embedding of [AI_Concentration/autoencoder_model.py].

    Conventions of the embedding.
    - A finite float64 value is a real number; NaN and the two infinities are
      separate constructors of [float64] and occur in raw tables only.
    - A pandas frame is a list of named, typed columns, in column order.
    - Python exceptions are values of [exn]; a function that can raise returns
      a [result]; a function that also reads or writes a Python object (the
      scaler, NumPy's global generator) is a computation of the monad [M]
      over that object's state.
    - Printing and plotting are not modelled; what a function prints is kept
      as a record of the printed quantities. *)

From Stdlib Require Import List String Ascii Bool Arith ZArith Lia.
From Stdlib Require Import Permutation Sorted.
From Stdlib Require Import Reals Lra.
Import ListNotations.

Local Open Scope string_scope.
Local Open Scope list_scope.

(** ** Exceptions and the two monads *)

Inductive exn : Type :=
| KeyError (labels : list string)   (* labels not found in the column axis *)
| ValueError (message : string)
| NotFittedError.

Inductive result (A : Type) : Type :=
| Ok (a : A)
| Raise (e : exn).
Arguments Ok {A} a.
Arguments Raise {A} e.

Definition rbind {A B : Type} (r : result A) (k : A -> result B) : result B :=
  match r with
  | Ok a => k a
  | Raise e => Raise e
  end.

(** A computation over a mutable object of state [S] that may raise. *)
Definition M (S A : Type) : Type := S -> result A * S.

Definition ret {S A : Type} (a : A) : M S A := fun s => (Ok a, s).
Definition raise {S A : Type} (e : exn) : M S A := fun s => (Raise e, s).
Definition bind {S A B : Type} (m : M S A) (k : A -> M S B) : M S B :=
  fun s => match m s with
           | (Ok a, s') => k a s'
           | (Raise e, s') => (Raise e, s')
           end.
Definition lift {S A : Type} (r : result A) : M S A := fun s => (r, s).
Definition get {S : Type} : M S S := fun s => (Ok s, s).
Definition put {S : Type} (s : S) : M S unit := fun _ => (Ok tt, s).

Declare Scope py_scope.
Delimit Scope py_scope with py.
Notation "x <- m ;; k" := (bind m (fun x => k))
  (at level 61, m at next level, right associativity) : py_scope.
Notation "x <~ r ;; k" := (rbind r (fun x => k))
  (at level 61, r at next level, right associativity) : py_scope.

(** ** Frames *)

Inductive float64 : Type :=
| Fin (x : R)
| NaN
| PosInf
| NegInf.

(** A column as read from the table or the CSV file: numeric, or of Python
    objects (strings, [None] where the value is missing). *)
Inductive raw_column : Type :=
| FloatCol (xs : list float64)
| ObjectCol (xs : list (option string)).

Definition RawFrame : Type := list (string * raw_column).

(** A column without missing or infinite values. *)
Inductive column : Type :=
| NumCol (xs : list R)
| StrCol (xs : list string).

Definition DataFrame : Type := list (string * column).

Definition columns {C : Type} (df : list (string * C)) : list string :=
  map fst df.

Definition mem (c : string) (cs : list string) : bool :=
  existsb (String.eqb c) cs.

Definition raw_len (c : raw_column) : nat :=
  match c with
  | FloatCol xs => List.length xs
  | ObjectCol xs => List.length xs
  end.

Definition raw_nrows (df : RawFrame) : nat :=
  match df with
  | [] => 0
  | (_, c) :: _ => raw_len c
  end.

Definition col_len (c : column) : nat :=
  match c with
  | NumCol xs => List.length xs
  | StrCol xs => List.length xs
  end.

Definition nrows (df : DataFrame) : nat :=
  match df with
  | [] => 0
  | (_, c) :: _ => col_len c
  end.

(** [isna c i]: row [i] of the column holds NaN or None. *)
Definition isna (c : raw_column) (i : nat) : bool :=
  match c with
  | FloatCol xs => match nth_error xs i with Some NaN => true | _ => false end
  | ObjectCol xs => match nth_error xs i with Some None => true | _ => false end
  end.

Definition take {A : Type} (rows : list nat) (xs : list A) : list A :=
  flat_map (fun i => match nth_error xs i with Some x => [x] | None => [] end)
           rows.

Definition take_rows (rows : list nat) (c : raw_column) : raw_column :=
  match c with
  | FloatCol xs => FloatCol (take rows xs)
  | ObjectCol xs => ObjectCol (take rows xs)
  end.

(** [data.dropna()]: the rows with no missing value. *)
Definition dropna (df : RawFrame) : RawFrame :=
  let keep :=
    filter (fun i => negb (existsb (fun nc => isna (snd nc) i) df))
           (seq 0 (raw_nrows df)) in
  map (fun nc => (fst nc, take_rows keep (snd nc))) df.

(** [data.replace([np.inf, -np.inf], np.nan)]. *)
Definition replace_inf (df : RawFrame) : RawFrame :=
  map (fun nc =>
         (fst nc,
          match snd nc with
          | FloatCol xs =>
              FloatCol (map (fun x => match x with
                                      | PosInf | NegInf => NaN
                                      | _ => x
                                      end) xs)
          | ObjectCol xs => ObjectCol xs
          end)) df.

(** The rows on which the numeric cell is finite / the object is present. *)
Definition complete (c : raw_column) (i : nat) : bool :=
  match c with
  | FloatCol xs => match nth_error xs i with Some (Fin _) => true | _ => false end
  | ObjectCol xs => match nth_error xs i with Some (Some _) => true | _ => false end
  end.

Definition finite_values (rows : list nat) (xs : list float64) : list R :=
  flat_map (fun i => match nth_error xs i with Some (Fin x) => [x] | _ => [] end)
           rows.

Definition present_values (rows : list nat) (xs : list (option string))
  : list string :=
  flat_map (fun i => match nth_error xs i with Some (Some s) => [s] | _ => [] end)
           rows.

(** The typed view of a frame after both [dropna] passes: every cell that is
    left is a finite number or a string. *)
Definition values (df : RawFrame) : DataFrame :=
  let rows :=
    filter (fun i => forallb (fun nc => complete (snd nc) i) df)
           (seq 0 (raw_nrows df)) in
  map (fun nc =>
         (fst nc,
          match snd nc with
          | FloatCol xs => NumCol (finite_values rows xs)
          | ObjectCol xs => StrCol (present_values rows xs)
          end)) df.

(** Lines 49-50 and 125-126: [dropna], then infinities to NaN and [dropna]. *)
Definition drop_missing_and_infinite (data : RawFrame) : DataFrame :=
  let data := dropna data in
  let data := dropna (replace_inf data) in
  values data.

(** [data.drop(labels, axis=1)]: raises when a label is not a column. *)
Definition drop (labels : list string) (df : DataFrame) : result DataFrame :=
  match filter (fun l => negb (mem l (columns df))) labels with
  | [] => Ok (filter (fun nc => negb (mem (fst nc) labels)) df)
  | missing => Raise (KeyError missing)
  end.

(** [data[name]]. *)
Fixpoint getitem (name : string) (df : DataFrame) : result column :=
  match df with
  | [] => Raise (KeyError [name])
  | (n, c) :: df' => if String.eqb name n then Ok c else getitem name df'
  end.

(** [data[name] = c] for a column that exists: replaced in place. *)
Definition setitem (name : string) (c : column) (df : DataFrame) : DataFrame :=
  map (fun nc => if String.eqb name (fst nc) then (fst nc, c) else nc) df.

(** [set(labels).issubset(data.columns)]. *)
Definition issubset (labels cols : list string) : bool :=
  forallb (fun l => mem l cols) labels.

(** ** LabelEncoder *)

Section SortedUnique.
Context {A : Type} (cmp : A -> A -> comparison).

Fixpoint insert_unique (x : A) (l : list A) : list A :=
  match l with
  | [] => [x]
  | y :: l' =>
      match cmp x y with
      | Lt => x :: l
      | Eq => l
      | Gt => y :: insert_unique x l'
      end
  end.

(** [np.unique]: the distinct values, ascending. *)
Definition unique (l : list A) : list A := fold_right insert_unique [] l.

(** Position of a value among the classes. *)
Fixpoint index_of (x : A) (l : list A) : nat :=
  match l with
  | [] => 0
  | y :: l' => match cmp x y with Eq => 0 | _ => S (index_of x l') end
  end.
End SortedUnique.

Definition R_compare (x y : R) : comparison :=
  match total_order_T x y with
  | inleft (left _) => Lt
  | inleft (right _) => Eq
  | inright _ => Gt
  end.

(** [LabelEncoder().fit(y).classes_]. *)
Definition LabelEncoder_classes (y : column) : column :=
  match y with
  | NumCol xs => NumCol (unique R_compare xs)
  | StrCol xs => StrCol (unique String.compare xs)
  end.

(** [LabelEncoder().fit_transform(y)]: each value replaced by its rank among
    the distinct values of this very column. *)
Definition LabelEncoder_fit_transform (y : column) : list nat :=
  match y with
  | NumCol xs => map (fun x => index_of R_compare x (unique R_compare xs)) xs
  | StrCol xs =>
      map (fun s => index_of String.compare s (unique String.compare xs)) xs
  end.

Definition codes (ks : list nat) : column := NumCol (map INR ks).

(** ** Column preprocessing of the Loader and of the Scorer *)

Definition id_columns : list string :=
  ["id"; "card_id"; "customer_id"; "email"; "address_city";
   "address_country"; "name_on_card"].

(** Lines 55-56: the loop over the categorical columns. *)
Fixpoint encode_columns (cols : list string) (data : DataFrame)
  : result DataFrame :=
  match cols with
  | [] => Ok data
  | column :: cols' =>
      (y <~ getitem column data ;;
       encode_columns cols'
         (setitem column (codes (LabelEncoder_fit_transform y)) data))%py
  end.

(** Lines 49-56 of [load_and_preprocess_data]. *)
Definition loader_preprocessing (data : RawFrame) : result DataFrame :=
  (let data := drop_missing_and_infinite data in
   data <~ drop id_columns data ;;
   encode_columns ["address_state"] data)%py.

(** Lines 125-133 of [detect_and_evaluate_fraud]. *)
Definition scorer_preprocessing (data : RawFrame) : result DataFrame :=
  (let data := drop_missing_and_infinite data in
   data <~ (if issubset id_columns (columns data)
            then drop id_columns data
            else Ok data) ;;
   if mem "address_state" (columns data)
   then y <~ getitem "address_state" data ;;
        Ok (setitem "address_state" (codes (LabelEncoder_fit_transform y)) data)
   else Ok data)%py.

(** ** NumPy statistics over a vector of reals *)

Definition sum (xs : list R) : R := fold_right Rplus 0%R xs.

Definition mean (xs : list R) : R := (sum xs / INR (List.length xs))%R.

(** [np.var], population variance (ddof = 0). *)
Definition var (xs : list R) : R :=
  mean (map (fun x => ((x - mean xs) * (x - mean xs))%R) xs).

(** [np.std], population standard deviation (ddof = 0). *)
Definition std (xs : list R) : R := sqrt (var xs).

(** ** Feature matrices and the StandardScaler object *)

(** A two-dimensional array, stored as the list of its columns (features),
    each a vector with one entry per row (sample). *)
Definition ndarray : Type := list (list R).

Definition n_features (X : ndarray) : nat := List.length X.

Definition n_samples (X : ndarray) : nat :=
  match X with
  | [] => 0
  | c :: _ => List.length c
  end.

(** The rows of an array, for the functions that work sample by sample. *)
Definition rows_of (X : ndarray) : list (list R) :=
  map (fun i => map (fun c => nth i c 0%R) X) (seq 0 (n_samples X)).

(** What scikit-learn does with the frame it is handed: a float array, or
    ValueError when a column still holds strings. *)
Fixpoint to_numpy (df : DataFrame) : result ndarray :=
  match df with
  | [] => Ok []
  | (_, NumCol xs) :: df' => (X <~ to_numpy df' ;; Ok (xs :: X))%py
  | (_, StrCol _) :: _ => Raise (ValueError "could not convert string to float")
  end.

(** The attributes a fitted scaler holds. *)
Record fitted : Type := {
  mean_ : list R;
  var_ : list R;
  scale_ : list R
}.

(** State of a [StandardScaler] object: [None] until [fit] has run. *)
Definition StandardScaler : Type := option fitted.

(** scikit-learn's [_handle_zeros_in_scale]: a feature of zero variance is
    divided by 1. *)
Definition handle_zeros_in_scale (s : R) : R :=
  if Req_dec_T s 0%R then 1%R else s.

Definition StandardScaler_fit (X : ndarray) : M StandardScaler unit :=
  if (n_samples X =? 0)%nat
  then raise (ValueError "Found array with 0 sample(s)")
  else put (Some {| mean_ := map mean X;
                    var_ := map var X;
                    scale_ := map (fun c => handle_zeros_in_scale (std c)) X |}).

Fixpoint scale_columns (X : ndarray) (ms ss : list R) : ndarray :=
  match X, ms, ss with
  | c :: X', m :: ms', s :: ss' =>
      map (fun x => ((x - m) / s)%R) c :: scale_columns X' ms' ss'
  | _, _, _ => []
  end.

Definition StandardScaler_transform (X : ndarray) : M StandardScaler ndarray :=
  (s <- get ;;
   match s with
   | None => raise NotFittedError
   | Some f =>
       if (n_samples X =? 0)%nat
       then raise (ValueError "Found array with 0 sample(s)")
       else if (n_features X =? List.length (mean_ f))%nat
       then ret (scale_columns X (mean_ f) (scale_ f))
       else raise (ValueError "X has a different number of features")
   end)%py.

(** [TransformerMixin.fit_transform]: [self.fit(X).transform(X)]. *)
Definition StandardScaler_fit_transform (X : ndarray)
  : M StandardScaler ndarray :=
  (_ <- StandardScaler_fit X ;; StandardScaler_transform X)%py.

(** Run a computation on a local object and hand back the object with the
    value, inside a computation over another state. *)
Definition with_object {S T A : Type} (m : M T A) (t : T) : M S (A * T) :=
  fun s => match m t with
           | (Ok a, t') => (Ok (a, t'), s)
           | (Raise e, _) => (Raise e, s)
           end.

(** ** The train/test split and the Loader *)

Section Loader.
(** NumPy's Mersenne Twister is not modelled: [rng] is its state,
    [RandomState seed] a generator freshly seeded, [permutation n g] the
    shuffled indices [0..n-1] drawn from [g] with the state it leaves. *)
Variable rng : Type.
Variable RandomState : Z -> rng.
Variable permutation : nat -> rng -> list nat * rng.

(** [train_test_split(arrays, test_size, random_state)] with [test_size]
    given in hundredths: [n_test = ceil(test_size * n)], the rest is the
    training part; an integer seed draws from a generator of its own and
    leaves the global one, the state of this computation, alone. *)
Definition train_test_split {A : Type} (arrays : list A) (test_size : nat)
    (random_state : option Z) : M rng (list A * list A) :=
  let n := List.length arrays in
  let n_test := (test_size * n + 99) / 100 in
  let n_train := n - n_test in
  if (n_train =? 0)%nat
  then raise (ValueError "the resulting train set will be empty")
  else fun g =>
    let (perm, g') :=
      match random_state with
      | Some seed => (fst (permutation n (RandomState seed)), g)
      | None => permutation n g
      end in
    (Ok (take (firstn n_train (skipn n_test perm)) arrays,
         take (firstn n_test perm) arrays), g').

(** [load_and_preprocess_data(db_path)], on the content of the table
    [account_stripemodel] read at lines 44-46. *)
Definition load_and_preprocess_data (data : RawFrame)
  : M rng (list (list R) * list (list R) * StandardScaler) :=
  (data <- lift (loader_preprocessing data) ;;
   X <- lift (to_numpy data) ;;
   fitted <- with_object (StandardScaler_fit_transform X) None ;;
   let (data_scaled, scaler) := (fitted : ndarray * StandardScaler) in
   split <- train_test_split (rows_of data_scaled) 20 (Some 42%Z) ;;
   let (train_data, test_data) := (split : list (list R) * list (list R)) in
   ret (train_data, test_data, scaler))%py.
End Loader.

(** ** The model builder *)

Inductive activation : Type := relu | sigmoid.

Definition apply_activation (a : activation) (x : R) : R :=
  match a with
  | relu => Rmax 0 x
  | sigmoid => (1 / (1 + exp (- x)))%R
  end.

Inductive layer : Type :=
| DenseLayer (units : Z) (act : activation) (kernel_regularizer : option R)
| DropoutLayer (rate : R).

Record network : Type := {
  input_shape : Z;
  layers : list layer;
  optimizer : string;
  loss : string
}.

(** Keras checks the arguments of a layer when it is constructed: a [Dense]
    layer needs a positive width, a [Dropout] layer a rate in [0, 1]. *)
Definition Dense (units : Z) (act : activation) (kernel_regularizer : option R)
  : result layer :=
  if (0 <? units)%Z
  then Ok (DenseLayer units act kernel_regularizer)
  else Raise (ValueError "units: expected a positive integer").

Definition Dropout (rate : R) : result layer :=
  if Rle_dec 0 rate
  then if Rle_dec rate 1
       then Ok (DropoutLayer rate)
       else Raise (ValueError "rate: expected a value between 0 and 1")
  else Raise (ValueError "rate: expected a value between 0 and 1").

(** The body shared by the loops of lines 22-25 and 28-31: [encoded] is the
    chain of layers applied to the input so far. *)
Fixpoint hidden_layers (dims : list Z) (l2_reg dropout_rate : R)
    (encoded : list layer) : result (list layer) :=
  match dims with
  | [] => Ok encoded
  | dim :: dims' =>
      (d <~ Dense dim relu (Some l2_reg) ;;
       let encoded := encoded ++ [d] in
       encoded <~ (if Rlt_dec 0 dropout_rate
                   then dr <~ Dropout dropout_rate ;; Ok (encoded ++ [dr])
                   else Ok encoded) ;;
       hidden_layers dims' l2_reg dropout_rate encoded)%py
  end.

Definition build_autoencoder (input_dim : Z) (encoding_dims : list Z)
    (l2_reg dropout_rate : R) : result network :=
  (encoded <~ hidden_layers encoding_dims l2_reg dropout_rate [] ;;
   encoded <~ hidden_layers (rev (removelast encoding_dims))
                            l2_reg dropout_rate encoded ;;
   decoded <~ Dense input_dim sigmoid None ;;
   Ok {| input_shape := input_dim;
         layers := encoded ++ [decoded];
         optimizer := "adam";
         loss := "mse" |})%py.

(** The widths of the fully-connected layers, in order. *)
Definition dense_units (ls : list layer) : list Z :=
  flat_map (fun l => match l with
                     | DenseLayer u _ _ => [u]
                     | DropoutLayer _ => []
                     end) ls.

(** Width of what the network returns: a dense layer sets it, dropout keeps
    it. *)
Definition output_width (net : network) : Z :=
  fold_left (fun w l => match l with
                        | DenseLayer u _ _ => u
                        | DropoutLayer _ => w
                        end) (layers net) (input_shape net).

(** ** Sorting, percentile and the Evaluator *)

Definition R_leb (x y : R) : bool := if Rle_dec x y then true else false.
Definition R_gtb (x y : R) : bool := if Rgt_dec x y then true else false.

Section Sort.
Context {A : Type} (leb : A -> A -> bool).

Fixpoint insert (x : A) (l : list A) : list A :=
  match l with
  | [] => [x]
  | y :: l' => if leb x y then x :: l else y :: insert x l'
  end.

Definition sort (l : list A) : list A := fold_right insert [] l.
End Sort.

Definition np_sort (a : list R) : list R := sort R_leb a.

(** [np.argsort(a)]: the indices of [a] in ascending order of value.  NumPy's
    default sort promises no order among equal values; here they keep the
    order of their indices, and [top_of_argsort] below holds for every
    ordering of the ties. *)
Definition np_argsort (a : list R) : list nat :=
  map fst (sort (fun p q => R_leb (snd p) (snd q))
                (combine (seq 0 (List.length a)) a)).

(** The slice [l[-k:]] for a positive [k]. *)
Definition last_k {A : Type} (k : nat) (l : list A) : list A :=
  skipn (List.length l - k) l.

(** [np.argsort(errors)[-k:][::-1]]; the source has [k = 5]. *)
Definition top_k (k : nat) (errors : list R) : list nat :=
  rev (last_k k (np_argsort errors)).

Definition top_anomalies (errors : list R) : list nat := top_k 5 errors.

(** NumPy's [_lerp]. *)
Definition lerp (a b t : R) : R :=
  if Rle_dec (1 / 2) t
  then (b - (b - a) * (1 - t))%R
  else (a + (b - a) * t)%R.

(** NumPy's [_quantile] on the sorted array: the entries on both sides of the
    virtual index, interpolated by its fractional part. *)
Definition linear_quantile (arr : list R) (virtual_index : R) : R :=
  let n := List.length arr in
  let previous := Z.to_nat (Int_part virtual_index) in
  let next := Nat.min (previous + 1) (n - 1) in
  let gamma := (virtual_index - INR previous)%R in
  lerp (nth previous arr 0%R) (nth next arr 0%R) gamma.

(** [np.percentile(a, q)], linear method.  On an empty array NumPy has no
    number to give (nan or an exception, by version): an exception here. *)
Definition np_percentile (a : list R) (q : R) : result R :=
  if Rle_dec 0 q
  then if Rle_dec q 100
       then match a with
            | [] => Raise (ValueError "percentile of an empty array")
            | _ =>
                let arr := np_sort a in
                let n := List.length arr in
                Ok (linear_quantile arr (INR (n - 1) * (q / 100)))
            end
       else Raise (ValueError "Percentiles must be in the range [0, 100]")
  else Raise (ValueError "Percentiles must be in the range [0, 100]").

Definition np_median (a : list R) : R :=
  let arr := np_sort a in
  let n := List.length arr in
  if Nat.even n
  then ((nth (n / 2 - 1) arr 0 + nth (n / 2) arr 0) / 2)%R
  else nth (n / 2) arr 0%R.

Definition np_min (a : list R) : R := fold_right Rmin (hd 0%R a) a.
Definition np_max (a : list R) : R := fold_right Rmax (hd 0%R a) a.

(** [reconstruction_errors > threshold], element by element. *)
Definition greater (errors : list R) (threshold : R) : list bool :=
  map (fun e => R_gtb e threshold) errors.

(** [np.sum] of a boolean array. *)
Definition count_true (bs : list bool) : nat := List.length (filter (fun b : bool => b) bs).

Record error_statistics : Type := {
  mean_error : R;
  median_error : R;
  min_error : R;
  max_error : R;
  std_error : R
}.

(** The quantities both reports print about the anomalies. *)
Record anomaly_report : Type := {
  threshold_printed : R;
  anomalies : list bool;
  num_anomalies : nat;
  total_samples : nat;
  top : list (nat * R)          (* index and error of each line printed *)
}.

Definition report_anomalies (reconstruction_errors : list R) (threshold : R)
  : anomaly_report :=
  let anomalies := greater reconstruction_errors threshold in
  {| threshold_printed := threshold;
     anomalies := anomalies;
     num_anomalies := count_true anomalies;
     total_samples := List.length reconstruction_errors;
     top := map (fun idx => (idx, nth idx reconstruction_errors 0%R))
                (top_anomalies reconstruction_errors) |}.

(** [evaluate_model_performance]: [np.min] raises on an empty array. *)
Definition evaluate_model_performance (reconstruction_errors : list R)
    (threshold : R) : result (error_statistics * anomaly_report) :=
  match reconstruction_errors with
  | [] => Raise (ValueError "zero-size array to reduction operation minimum")
  | _ =>
      Ok ({| mean_error := mean reconstruction_errors;
             median_error := np_median reconstruction_errors;
             min_error := np_min reconstruction_errors;
             max_error := np_max reconstruction_errors;
             std_error := std reconstruction_errors |},
          report_anomalies reconstruction_errors threshold)
  end.

(** ** The Scorer *)

(** [np.mean(np.square(reconstructions - data), axis=1)], row by row. *)
Definition reconstruction_error (reconstruction row : list R) : R :=
  mean (map (fun rx => ((fst rx - snd rx) * (fst rx - snd rx))%R)
            (combine reconstruction row)).

Definition reconstruction_errors_of (reconstructions data : list (list R))
  : list R :=
  map (fun rx => reconstruction_error (fst rx) (snd rx))
      (combine reconstructions data).

(** What [detect_and_evaluate_fraud] prints and what it saves with
    [np.save]. *)
Record detection : Type := {
  printed : anomaly_report;
  saved_errors : list R
}.

(** [detect_and_evaluate_fraud(csv_path, model, scaler, threshold)] on the
    content of the CSV file; [model] stands for [model.predict] and the
    scaler object is the state of the computation. *)
Definition detect_and_evaluate_fraud (data : RawFrame)
    (model : list (list R) -> list (list R)) (threshold : R)
  : M StandardScaler detection :=
  (data <- lift (scorer_preprocessing data) ;;
   X <- lift (to_numpy data) ;;
   data_scaled <- StandardScaler_transform X ;;
   let data_scaled := rows_of data_scaled in
   let reconstructions := model data_scaled in
   let reconstruction_errors :=
     reconstruction_errors_of reconstructions data_scaled in
   ret {| printed := report_anomalies reconstruction_errors threshold;
          saved_errors := reconstruction_errors |})%py.

(** ** The run *)



Section Main.
Variable rng : Type.
Variable RandomState : Z -> rng.
Variable permutation : nat -> rng -> list nat * rng.
(** Training is not modelled: [fit net train epochs batch] stands for the
    prediction function of the network once [autoencoder.fit] has run. *)
Variable fit :
  network -> list (list R) -> nat -> nat -> list (list R) -> list (list R).

End Main.

(** ** Rows of a raw frame, for the statements about cleaning *)

(** Every column has as many cells as the frame has rows. *)
Definition well_formed (df : RawFrame) : Prop :=
  forall nc, In nc df -> raw_len (snd nc) = raw_nrows df.

(** Row [i] holds a missing value / holds only finite and present values. *)
Definition has_na (df : RawFrame) (i : nat) : bool :=
  existsb (fun nc => isna (snd nc) i) df.

Definition all_complete (df : RawFrame) (i : nat) : bool :=
  forallb (fun nc => complete (snd nc) i) df.

(** The frame restricted to the rows of a list of indices. *)
Definition select_rows (rows : list nat) (df : RawFrame) : RawFrame :=
  map (fun nc => (fst nc, take_rows rows (snd nc))) df.

Definition replace_inf_column (c : raw_column) : raw_column :=
  match c with
  | FloatCol xs =>
      FloatCol (map (fun x => match x with
                              | PosInf | NegInf => NaN
                              | _ => x
                              end) xs)
  | ObjectCol xs => ObjectCol xs
  end.

Definition typed_column (rows : list nat) (c : raw_column) : column :=
  match c with
  | FloatCol xs => NumCol (finite_values rows xs)
  | ObjectCol xs => StrCol (present_values rows xs)
  end.

(** Every index of the list is a row of every column. *)
Definition rows_valid (r : list nat) (df : RawFrame) : Prop :=
  forall nc, In nc df -> forall i, In i r -> (i < raw_len (snd nc))%nat.

(** The complete rows of a frame, in order. *)
Definition complete_rows (df : RawFrame) : list nat :=
  filter (all_complete df) (seq 0 (raw_nrows df)).

(** ** Sample inputs *)

(** A generator for the examples: its state is a counter, a permutation
    rotates the indices by the counter and steps it. *)
Definition counter_seed (seed : Z) : nat := Z.to_nat seed.

Definition counter_permutation (n : nat) (g : nat) : list nat * nat :=
  (skipn (g mod (n + 1)) (seq 0 n) ++ firstn (g mod (n + 1)) (seq 0 n), S g).

Definition three_texts : list (option string) :=
  [Some "a"; Some "b"; Some "c"].

Definition three_numbers : list float64 := [Fin 1; Fin 2; Fin 3].

(** A table with every column the Loader names, and one feature. *)
Definition table_with_states (states : list (option string)) : RawFrame :=
  [("id", FloatCol three_numbers);
   ("card_id", ObjectCol three_texts);
   ("customer_id", ObjectCol three_texts);
   ("email", ObjectCol three_texts);
   ("address_city", ObjectCol three_texts);
   ("address_state", ObjectCol states);
   ("address_country", ObjectCol three_texts);
   ("name_on_card", ObjectCol three_texts);
   ("amount", FloatCol three_numbers)].

Definition training_table : RawFrame :=
  table_with_states [Some "CA"; Some "NY"; Some "TX"].

(** The same table without the column [email]. *)
Definition table_without_email : RawFrame :=
  filter (fun nc => negb (String.eqb (fst nc) "email")) training_table.

(** The same table without the column [address_state]. *)
Definition table_without_state : RawFrame :=
  filter (fun nc => negb (String.eqb (fst nc) "address_state")) training_table.

(** A new dataset that has two of the identifier columns only. *)
Definition dataset_with_two_ids : RawFrame :=
  [("id", FloatCol three_numbers);
   ("email", ObjectCol three_texts);
   ("amount", FloatCol three_numbers)].

(** A new dataset in which no account is in California. *)
Definition dataset_without_california : RawFrame :=
  [("address_state", ObjectCol [Some "NY"; Some "TX"; Some "NY"]);
   ("amount", FloatCol three_numbers)].

(** [state_code raw df s c]: some row holds state [s] in the raw frame
    and code [c] in the preprocessed one. *)
Definition state_code (raw : RawFrame) (df : DataFrame) (s : string) (c : R)
  : Prop :=
  exists (i : nat) (xs : list (option string)) (ys : list R),
    In ("address_state", ObjectCol xs) raw /\
    nth_error xs i = Some (Some s) /\
    getitem "address_state" df = Ok (NumCol ys) /\
    nth_error ys i = Some c.

(** The error array of the spec's example. *)
Definition example_errors : list R :=
  [1 / 10; 9 / 10; 3 / 10; 5 / 100; 7 / 10]%R.

(** A feature that takes one value on every sample. *)
Definition constant (c : list R) : Prop :=
  forall x y, In x c -> In y c -> x = y.

(** A matrix of two samples and one feature, which is 3 on both. *)
Definition constant_feature : ndarray := [[3; 3]%R].

(** The same with a second feature that varies. *)
Definition two_features : ndarray := [[3; 3]%R; [1; 2]%R].



(** A table with a missing amount on its second row, an infinite one on its
    third and a missing state on its fourth. *)
Definition table_with_gaps : RawFrame :=
  [("amount", FloatCol [Fin 1; NaN; PosInf; Fin 4]);
   ("address_state", ObjectCol [Some "NY"; Some "TX"; Some "CA"; None])].

Definition expected_columns : list string := id_columns ++ ["address_state"].

(** * Properties *)

(** ** Columns *)

Lemma mem_In (c : string) (cs : list string) : mem c cs = true <-> In c cs.
Proof.
  unfold mem. rewrite existsb_exists. split.
  - intros [x [Hx He]]. apply String.eqb_eq in He. now subst.
  - intros H. exists c. split; [assumption | apply String.eqb_refl].
Qed.

Lemma mem_not_In (c : string) (cs : list string) :
  mem c cs = false <-> ~ In c cs.
Proof.
  rewrite <- mem_In. destruct (mem c cs); split; congruence.
Qed.

Lemma columns_dropna (df : RawFrame) : columns (dropna df) = columns df.
Proof. unfold columns, dropna. rewrite map_map. reflexivity. Qed.

Lemma columns_replace_inf (df : RawFrame) :
  columns (replace_inf df) = columns df.
Proof. unfold columns, replace_inf. rewrite map_map. reflexivity. Qed.

Lemma columns_values (df : RawFrame) : columns (values df) = columns df.
Proof. unfold columns, values. rewrite map_map. reflexivity. Qed.

Lemma columns_drop_missing_and_infinite (df : RawFrame) :
  columns (drop_missing_and_infinite df) = columns df.
Proof.
  unfold drop_missing_and_infinite.
  now rewrite columns_values, columns_dropna, columns_replace_inf,
    columns_dropna.
Qed.

Lemma columns_setitem (name : string) (c : column) (df : DataFrame) :
  columns (setitem name c df) = columns df.
Proof.
  unfold columns, setitem. rewrite map_map. apply map_ext.
  intros [n c']. simpl. now destruct (String.eqb name n).
Qed.

Lemma columns_filter (p : string -> bool) (df : DataFrame) :
  columns (filter (fun nc => p (fst nc)) df) = filter p (columns df).
Proof.
  induction df as [|[n c] df IH]; simpl; [reflexivity|].
  destruct (p n); simpl; now rewrite IH.
Qed.

Lemma getitem_absent (name : string) (df : DataFrame) :
  ~ In name (columns df) -> getitem name df = Raise (KeyError [name]).
Proof.
  induction df as [|[n c] df IH]; simpl; intros H; [reflexivity|].
  destruct (String.eqb_spec name n) as [->|Hne].
  - exfalso. apply H. now left.
  - apply IH. intros Hin. apply H. now right.
Qed.

Lemma getitem_present (name : string) (df : DataFrame) :
  In name (columns df) -> exists y, getitem name df = Ok y.
Proof.
  induction df as [|[n c] df IH]; simpl; intros H; [contradiction|].
  destruct (String.eqb_spec name n) as [->|Hne].
  - now exists c.
  - apply IH. destruct H as [H|H]; [congruence | assumption].
Qed.

Lemma getitem_filter (name : string) (p : string -> bool) (df : DataFrame) :
  p name = true ->
  getitem name (filter (fun nc => p (fst nc)) df) = getitem name df.
Proof.
  intros Hp. induction df as [|[n c] df IH]; simpl; [reflexivity|].
  destruct (String.eqb_spec name n) as [->|Hne].
  - rewrite Hp. simpl. now rewrite String.eqb_refl.
  - destruct (p n); simpl; [|assumption].
    destruct (String.eqb_spec name n); [congruence | assumption].
Qed.

Lemma getitem_setitem (name : string) (c y : column) (df : DataFrame) :
  getitem name df = Ok y -> getitem name (setitem name c df) = Ok c.
Proof.
  induction df as [|[n c'] df IH]; simpl; [discriminate|].
  destruct (String.eqb_spec name n) as [->|Hne]; simpl.
  - now rewrite String.eqb_refl.
  - destruct (String.eqb_spec name n); [congruence | assumption].
Qed.

Lemma drop_present (labels : list string) (df : DataFrame) :
  issubset labels (columns df) = true ->
  drop labels df = Ok (filter (fun nc => negb (mem (fst nc) labels)) df).
Proof.
  intros H. unfold drop.
  replace (filter (fun l => negb (mem l (columns df))) labels) with (@nil string);
    [reflexivity|].
  unfold issubset in H. rewrite forallb_forall in H.
  symmetry. induction labels as [|l ls IH]; simpl; [reflexivity|].
  rewrite (H l (or_introl eq_refl)). simpl.
  apply IH. intros x Hx. apply H. now right.
Qed.

Lemma drop_absent (labels : list string) (df : DataFrame) :
  issubset labels (columns df) = false ->
  exists missing,
    drop labels df = Raise (KeyError missing) /\ missing <> [] /\
    forall c, In c missing -> In c labels /\ ~ In c (columns df).
Proof.
  intros H. unfold drop.
  remember (filter (fun l => negb (mem l (columns df))) labels) as miss eqn:E.
  destruct miss as [|m ms].
  - exfalso. unfold issubset in H.
    assert (forallb (fun l => mem l (columns df)) labels = true) as Hall.
    { apply forallb_forall. intros x Hx.
      destruct (mem x (columns df)) eqn:Hm; [reflexivity|].
      assert (In x []) as Hin.
      { rewrite E. apply filter_In. split; [assumption|]. now rewrite Hm. }
      destruct Hin. }
    congruence.
  - exists (m :: ms). split; [reflexivity|]. split; [discriminate|].
    intros c Hc. rewrite E in Hc. apply filter_In in Hc.
    destruct Hc as [Hin Hm]. split; [assumption|].
    apply mem_not_In. now destruct (mem c (columns df)).
Qed.

(** ** The Loader does not skip a step *)

Lemma encode_state_absent (df : DataFrame) :
  ~ In "address_state" (columns df) ->
  encode_columns ["address_state"] df = Raise (KeyError ["address_state"]).
Proof. intros H. simpl. now rewrite (getitem_absent _ _ H). Qed.

Lemma loader_preprocessing_absent (data : RawFrame) :
  (exists c, In c expected_columns /\ ~ In c (columns data)) ->
  exists missing,
    loader_preprocessing data = Raise (KeyError missing) /\
    missing <> [] /\
    forall c, In c missing -> In c expected_columns /\ ~ In c (columns data).
Proof.
  intros [c [Hexp Habs]]. unfold loader_preprocessing.
  pose proof (columns_drop_missing_and_infinite data) as Hcols.
  set (df := drop_missing_and_infinite data) in *.
  destruct (issubset id_columns (columns df)) eqn:Hsub.
  - (* every identifier is there, so it is the state that is absent *)
    rewrite (drop_present _ _ Hsub). simpl rbind.
    assert (~ In "address_state" (columns data)) as Hstate.
    { unfold expected_columns in Hexp. apply in_app_or in Hexp.
      destruct Hexp as [Hid|[<-|[]]]; [|assumption].
      exfalso. apply Habs. rewrite <- Hcols. apply mem_In.
      unfold issubset in Hsub. rewrite forallb_forall in Hsub. now apply Hsub. }
    exists ["address_state"]. split; [|split].
    + rewrite getitem_absent; [reflexivity|].
      rewrite (columns_filter (fun n => negb (mem n id_columns))).
      intros Hin. apply filter_In in Hin. apply Hstate.
      rewrite <- Hcols. tauto.
    + discriminate.
    + intros c' [<-|[]]. split; [|assumption].
      unfold expected_columns. apply in_or_app. right. now left.
  - destruct (drop_absent _ _ Hsub) as [missing [Hd [Hne Hall]]].
    exists missing. rewrite Hd. split; [reflexivity|]. split; [assumption|].
    intros c' Hc'. destruct (Hall c' Hc') as [H1 H2]. split.
    + unfold expected_columns. apply in_or_app. now left.
    + now rewrite <- Hcols.
Qed.

(** C1, as the code has it: when a column that the Loader names (one of the
    seven identifier columns, or [address_state]) is absent from the table,
    [load_and_preprocess_data] skips nothing: it raises KeyError, the labels
    it reports are absent expected columns, and NumPy's global generator is
    left as it was. *)
Theorem load_and_preprocess_data_raises_on_absent_column
    (rng : Type) (RandomState : Z -> rng)
    (permutation : nat -> rng -> list nat * rng)
    (data : RawFrame) (g : rng) :
  (exists c, In c expected_columns /\ ~ In c (columns data)) ->
  exists missing,
    load_and_preprocess_data rng RandomState permutation data g
      = (Raise (KeyError missing), g) /\
    missing <> [] /\
    forall c, In c missing -> In c expected_columns /\ ~ In c (columns data).
Proof.
  intros H. destruct (loader_preprocessing_absent data H) as [missing [E HP]].
  exists missing. split; [|exact HP].
  unfold load_and_preprocess_data, bind, lift. now rewrite E.
Qed.

Lemma load_and_preprocess_data_raises_on_absent_column_witness :
  exists missing,
    load_and_preprocess_data nat counter_seed counter_permutation
      table_without_email 0
      = (Raise (KeyError missing), 0) /\
    missing <> [] /\
    forall c, In c missing ->
              In c expected_columns /\ ~ In c (columns table_without_email).
Proof.
  apply (load_and_preprocess_data_raises_on_absent_column
           nat counter_seed counter_permutation table_without_email 0).
  exists "email". split.
  - unfold expected_columns, id_columns. simpl. tauto.
  - simpl. intros H.
    repeat (destruct H as [H|H]; [discriminate H|]). exact H.
Defined.

(** C1 as the spec states it fails: a table without [email], and a table
    without [address_state], make the Loader raise instead of completing. *)
Lemma loader_raises_without_email_or_state :
  loader_preprocessing table_without_email = Raise (KeyError ["email"]) /\
  fst (load_and_preprocess_data nat counter_seed counter_permutation
         table_without_email 0) = Raise (KeyError ["email"]) /\
  loader_preprocessing table_without_state
    = Raise (KeyError ["address_state"]) /\
  fst (load_and_preprocess_data nat counter_seed counter_permutation
         table_without_state 0) = Raise (KeyError ["address_state"]).
Proof. repeat split; reflexivity. Qed.

(** ** The Scorer drops the identifiers all together or not at all *)

Lemma scorer_encode_step (df : DataFrame) :
  exists df',
    (if mem "address_state" (columns df)
     then (y <~ getitem "address_state" df ;;
           Ok (setitem "address_state"
                       (codes (LabelEncoder_fit_transform y)) df))%py
     else Ok df) = Ok df' /\
    columns df' = columns df /\
    forall y, getitem "address_state" df = Ok y ->
              getitem "address_state" df'
                = Ok (codes (LabelEncoder_fit_transform y)).
Proof.
  destruct (mem "address_state" (columns df)) eqn:Hm.
  - apply mem_In in Hm. destruct (getitem_present _ _ Hm) as [y Hy].
    rewrite Hy. simpl rbind. eexists. split; [reflexivity|]. split.
    + apply columns_setitem.
    + intros y' Hy'. injection Hy' as <-.
      now apply getitem_setitem with (y := y).
  - exists df. split; [reflexivity|]. split; [reflexivity|].
    intros y Hy. apply mem_not_In in Hm.
    rewrite (getitem_absent _ _ Hm) in Hy. discriminate.
Qed.

(** C3, as the code has it: [detect_and_evaluate_fraud] preprocesses every
    dataset without raising; it removes the seven identifier columns when
    all seven are columns of the dataset and removes no column otherwise;
    and when [address_state] is a column it is replaced by the integer codes
    of a label encoder fitted on that column. *)
Theorem scorer_preprocessing_drops_all_or_nothing (data : RawFrame) :
  exists df,
    scorer_preprocessing data = Ok df /\
    columns df
      = (if issubset id_columns (columns data)
         then filter (fun c => negb (mem c id_columns)) (columns data)
         else columns data) /\
    (issubset id_columns (columns data) = true ->
     forall c, In c id_columns -> ~ In c (columns df)) /\
    (forall y,
        getitem "address_state" (drop_missing_and_infinite data) = Ok y ->
        getitem "address_state" df
          = Ok (codes (LabelEncoder_fit_transform y))).
Proof.
  unfold scorer_preprocessing.
  pose proof (columns_drop_missing_and_infinite data) as Hcols.
  set (D := drop_missing_and_infinite data) in *.
  rewrite Hcols.
  destruct (issubset id_columns (columns data)) eqn:Hsub.
  - rewrite drop_present by now rewrite Hcols.
    simpl rbind.
    set (df1 := filter (fun nc => negb (mem (fst nc) id_columns)) D).
    destruct (scorer_encode_step df1) as [df' [E [Hc Hg]]].
    exists df'. split; [exact E|].
    assert (columns df'
            = filter (fun c => negb (mem c id_columns)) (columns data)) as Hc'.
    { rewrite Hc. unfold df1.
      rewrite (columns_filter (fun n => negb (mem n id_columns))).
      now rewrite Hcols. }
    split; [exact Hc'|]. split.
    + intros _ c Hin Hin'. rewrite Hc' in Hin'. apply filter_In in Hin'.
      destruct Hin' as [_ Hneg]. apply mem_In in Hin. rewrite Hin in Hneg.
      discriminate.
    + intros y Hy. apply Hg. unfold df1.
      now rewrite (getitem_filter "address_state"
                     (fun n => negb (mem n id_columns))).
  - simpl rbind.
    destruct (scorer_encode_step D) as [df' [E [Hc Hg]]].
    exists df'. split; [exact E|]. split; [now rewrite Hc|].
    split; [discriminate | exact Hg].
Qed.


(** C3 as the spec states it fails: on a dataset that has [id] and [email]
    but not the other five identifier columns, the Scorer's preprocessing
    completes and both columns are still there. *)
Lemma scorer_keeps_identifiers_of_partial_set :
  exists df,
    scorer_preprocessing dataset_with_two_ids = Ok df /\
    columns df = ["id"; "email"; "amount"] /\
    In "id" id_columns /\ In "id" (columns df) /\
    In "email" id_columns /\ In "email" (columns df).
Proof.
  eexists. split; [reflexivity|]. simpl. unfold id_columns. simpl. tauto.
Qed.

(** ** The two label encoders disagree *)

(** C5: the Scorer fits its label encoder on the [address_state] column of
    the new dataset itself (its codes are the ranks among the states of that
    dataset), so a state can get one code in training and another in
    scoring: New York is 1 when the training table holds California, New
    York and Texas, and 0 in a new dataset that holds New York and Texas
    only. *)
Theorem scorer_refits_label_encoder :
  exists (training scoring : RawFrame) (dt ds : DataFrame)
         (s : string) (ct cs : R),
    loader_preprocessing training = Ok dt /\
    scorer_preprocessing scoring = Ok ds /\
    getitem "address_state" ds
      = Ok (codes (LabelEncoder_fit_transform (StrCol ["NY"; "TX"; "NY"]))) /\
    state_code training dt s ct /\
    state_code scoring ds s cs /\
    ct <> cs.
Proof.
  exists training_table, dataset_without_california.
  eexists. eexists. exists "NY", (INR 1), (INR 0).
  split; [reflexivity|]. split; [reflexivity|]. split; [reflexivity|].
  split; [|split].
  - exists 1%nat. eexists. eexists. split; [|split; [|split]].
    + unfold training_table, table_with_states.
      do 5 right. left. reflexivity.
    + reflexivity.
    + reflexivity.
    + reflexivity.
  - exists 0%nat. eexists. eexists. split; [|split; [|split]].
    + left. reflexivity.
    + reflexivity.
    + reflexivity.
    + reflexivity.
  - simpl. lra.
Qed.

(** ** The layers of the autoencoder *)

Lemma dense_units_app (l1 l2 : list layer) :
  dense_units (l1 ++ l2) = dense_units l1 ++ dense_units l2.
Proof. unfold dense_units. apply flat_map_app. Qed.

Lemma Dense_positive (units : Z) (act : activation) (reg : option R) :
  (0 < units)%Z -> Dense units act reg = Ok (DenseLayer units act reg).
Proof. intros H. unfold Dense. apply Z.ltb_lt in H. now rewrite H. Qed.

Lemma hidden_layers_units (dims : list Z) (l2_reg dropout_rate : R) :
  Forall (fun w => (0 < w)%Z) dims ->
  (dropout_rate <= 1)%R ->
  forall encoded,
  exists out,
    hidden_layers dims l2_reg dropout_rate encoded = Ok out /\
    dense_units out = dense_units encoded ++ dims.
Proof.
  intros Hpos Hrate. induction Hpos as [|w ws Hw Hws IH]; intros encoded.
  - exists encoded. split; [reflexivity|]. now rewrite app_nil_r.
  - simpl. rewrite Dense_positive by assumption. simpl rbind.
    destruct (Rlt_dec 0 dropout_rate) as [Hlt|Hge].
    + unfold Dropout.
      destruct (Rle_dec 0 dropout_rate) as [_|Hn]; [|exfalso; lra].
      destruct (Rle_dec dropout_rate 1) as [_|Hn]; [|contradiction].
      simpl rbind.
      destruct (IH ((encoded ++ [DenseLayer w relu (Some l2_reg)])
                      ++ [DropoutLayer dropout_rate])) as [out [E Hu]].
      exists out. split; [exact E|]. rewrite Hu.
      rewrite !dense_units_app. simpl. rewrite app_nil_r.
      now rewrite <- app_assoc.
    + simpl rbind.
      destruct (IH (encoded ++ [DenseLayer w relu (Some l2_reg)]))
        as [out [E Hu]].
      exists out. split; [exact E|]. rewrite Hu.
      rewrite dense_units_app. simpl. now rewrite <- app_assoc.
Qed.

Lemma Forall_removelast {A : Type} (P : A -> Prop) (l : list A) :
  Forall P l -> Forall P (removelast l).
Proof.
  induction 1 as [|x l Hx Hl IH]; simpl; [constructor|].
  destruct l; [constructor|]. constructor; assumption.
Qed.

Lemma sigmoid_range (x : R) :
  (0 < apply_activation sigmoid x < 1)%R.
Proof.
  simpl. pose proof (exp_pos (- x)) as He.
  assert (0 < 1 + exp (- x))%R as Hd by lra.
  split.
  - apply Rdiv_lt_0_compat; lra.
  - apply (Rmult_lt_reg_r (1 + exp (- x))); [assumption|].
    unfold Rdiv. rewrite Rmult_assoc, Rinv_l by lra. lra.
Qed.

(** C4: for a positive input width [d], positive encoder widths and a
    dropout rate that Keras accepts, [build_autoencoder] returns a network
    whose fully-connected layers have the widths of the encoder, then those
    widths without the last one in reverse, then [d]; its last layer is the
    one of width [d] with the sigmoid activation, every value of which lies
    between 0 and 1; so the network returns vectors of the width it takes. *)
Theorem build_autoencoder_layers (d : Z) (ws : list Z) (l2_reg dropout_rate : R) :
  (0 < d)%Z ->
  Forall (fun w => (0 < w)%Z) ws ->
  (dropout_rate <= 1)%R ->
  exists net,
    build_autoencoder d ws l2_reg dropout_rate = Ok net /\
    dense_units (layers net) = ws ++ rev (removelast ws) ++ [d] /\
    last (layers net) (DropoutLayer 0) = DenseLayer d sigmoid None /\
    input_shape net = d /\
    output_width net = d /\
    forall x, (0 <= apply_activation sigmoid x <= 1)%R.
Proof.
  intros Hd Hws Hrate. unfold build_autoencoder.
  destruct (hidden_layers_units ws l2_reg dropout_rate Hws Hrate [])
    as [enc [E1 H1]].
  rewrite E1. simpl rbind.
  assert (Forall (fun w => (0 < w)%Z) (rev (removelast ws))) as Hrev.
  { apply Forall_rev. now apply Forall_removelast. }
  destruct (hidden_layers_units _ l2_reg dropout_rate Hrev Hrate enc)
    as [dec [E2 H2]].
  rewrite E2. simpl rbind.
  rewrite Dense_positive by assumption. simpl rbind.
  eexists. split; [reflexivity|]. simpl.
  split; [|split; [|split; [|split]]].
  - rewrite dense_units_app, H2, H1. simpl. now rewrite <- app_assoc.
  - apply last_last.
  - reflexivity.
  - unfold output_width. simpl. now rewrite fold_left_app.
  - intros x. pose proof (sigmoid_range x) as H. simpl in *. lra.
Qed.

Lemma build_autoencoder_layers_witness :
  exists net,
    build_autoencoder 9 [16; 8; 4]%Z (1 / 1000) (1 / 5) = Ok net /\
    dense_units (layers net) = [16; 8; 4; 8; 16; 9]%Z /\
    last (layers net) (DropoutLayer 0) = DenseLayer 9 sigmoid None /\
    input_shape net = 9%Z /\
    output_width net = 9%Z /\
    forall x, (0 <= apply_activation sigmoid x <= 1)%R.
Proof.
  apply (build_autoencoder_layers 9 [16; 8; 4]%Z (1 / 1000) (1 / 5)).
  - reflexivity.
  - repeat constructor.
  - lra.
Defined.

(** ** Sorting *)

Section SortFacts.
Context {A : Type} (leb : A -> A -> bool).
Hypothesis leb_total : forall a b, leb a b = true \/ leb b a = true.
Hypothesis leb_trans :
  forall a b c, leb a b = true -> leb b c = true -> leb a c = true.

Lemma insert_perm (x : A) (l : list A) :
  Permutation (insert leb x l) (x :: l).
Proof.
  induction l as [|y l IH]; simpl; [reflexivity|].
  destruct (leb x y); [reflexivity|].
  rewrite IH. apply perm_swap.
Qed.

Lemma sort_perm (l : list A) : Permutation (sort leb l) l.
Proof.
  induction l as [|x l IH]; simpl; [reflexivity|].
  rewrite insert_perm. now constructor.
Qed.

Lemma insert_sorted (x : A) (l : list A) :
  StronglySorted (fun a b => leb a b = true) l ->
  StronglySorted (fun a b => leb a b = true) (insert leb x l).
Proof.
  induction 1 as [|y l Hs IH Hy]; simpl.
  - repeat constructor.
  - destruct (leb x y) eqn:E.
    + constructor; [now constructor|].
      constructor; [assumption|].
      rewrite Forall_forall in *. intros z Hz.
      apply leb_trans with y; auto.
    + constructor; [assumption|].
      rewrite Forall_forall in *. intros z Hz.
      apply (Permutation_in _ (insert_perm x l)) in Hz.
      destruct Hz as [<-|Hz]; [|auto].
      destruct (leb_total x y) as [H|H]; congruence.
Qed.

Lemma sort_sorted (l : list A) :
  StronglySorted (fun a b => leb a b = true) (sort leb l).
Proof.
  induction l as [|x l IH]; simpl; [constructor|].
  now apply insert_sorted.
Qed.
End SortFacts.

Lemma R_leb_le (x y : R) : R_leb x y = true <-> (x <= y)%R.
Proof. unfold R_leb. destruct (Rle_dec x y); split; auto; discriminate. Qed.

Lemma R_gtb_gt (x y : R) : R_gtb x y = true <-> (x > y)%R.
Proof. unfold R_gtb. destruct (Rgt_dec x y); split; auto; discriminate. Qed.

Lemma StronglySorted_weaken {A B : Type} (R1 : A -> A -> Prop)
    (R2 : B -> B -> Prop) (f : A -> B) (l : list A) :
  (forall x y, In x l -> In y l -> R1 x y -> R2 (f x) (f y)) ->
  StronglySorted R1 l -> StronglySorted R2 (map f l).
Proof.
  intros Hf Hs. induction Hs as [|x l Hs IH Hx]; simpl; [constructor|].
  constructor.
  - apply IH. intros a b Ha Hb. apply Hf; now right.
  - rewrite Forall_forall in *. intros b Hb. apply in_map_iff in Hb.
    destruct Hb as [y [<- Hy]]. apply Hf; [now left | now right | auto].
Qed.

Lemma StronglySorted_app_inv {A : Type} (R : A -> A -> Prop) (l1 l2 : list A) :
  StronglySorted R (l1 ++ l2) ->
  StronglySorted R l1 /\ StronglySorted R l2 /\
  forall a b, In a l1 -> In b l2 -> R a b.
Proof.
  induction l1 as [|x l1 IH]; simpl; intros H.
  - repeat split; [constructor | assumption | contradiction].
  - inversion H as [|? ? Hs Hx]; subst.
    destruct (IH Hs) as [H1 [H2 H3]]. rewrite Forall_forall in Hx.
    repeat split; [|assumption|].
    + constructor; [assumption|]. rewrite Forall_forall. intros y Hy.
      apply Hx. apply in_or_app. now left.
    + intros a b [<-|Ha] Hb; [|now apply H3].
      apply Hx. apply in_or_app. now right.
Qed.

Lemma StronglySorted_app {A : Type} (R : A -> A -> Prop) (l1 l2 : list A) :
  StronglySorted R l1 -> StronglySorted R l2 ->
  (forall a b, In a l1 -> In b l2 -> R a b) ->
  StronglySorted R (l1 ++ l2).
Proof.
  intros H1 H2 H. induction H1 as [|x l1 Hs IH Hx]; simpl; [assumption|].
  constructor.
  - apply IH. intros a b Ha. apply H. now right.
  - rewrite Forall_forall in *. intros y Hy. apply in_app_or in Hy.
    destruct Hy as [Hy|Hy]; [now apply Hx | apply H; [now left | assumption]].
Qed.

Lemma StronglySorted_rev {A : Type} (R : A -> A -> Prop) (l : list A) :
  StronglySorted R l -> StronglySorted (fun a b => R b a) (rev l).
Proof.
  induction 1 as [|x l Hs IH Hx]; simpl; [constructor|].
  apply StronglySorted_app; [assumption | repeat constructor |].
  intros a b Ha [<-|[]]. rewrite Forall_forall in Hx. apply Hx.
  now apply in_rev.
Qed.

Lemma StronglySorted_nth (l : list R) (i j : nat) :
  StronglySorted Rle l -> (i <= j < List.length l)%nat ->
  (nth i l 0 <= nth j l 0)%R.
Proof.
  intros Hs. revert i j. induction Hs as [|x l Hs IH Hx]; intros i j Hij.
  - simpl in Hij. lia.
  - destruct i as [|i], j as [|j]; simpl in *; try lia.
    + lra.
    + rewrite Forall_forall in Hx. apply Hx. apply nth_In. lia.
    + apply IH. lia.
Qed.

Lemma np_sort_sorted (a : list R) : StronglySorted Rle (np_sort a).
Proof.
  unfold np_sort.
  rewrite <- (map_id (sort R_leb a)).
  apply StronglySorted_weaken with (R1 := fun x y => R_leb x y = true).
  - intros x y _ _ H. now apply R_leb_le.
  - apply sort_sorted.
    + intros x y. rewrite !R_leb_le. lra.
    + intros x y z. rewrite !R_leb_le. lra.
Qed.

Lemma np_sort_length (a : list R) : List.length (np_sort a) = List.length a.
Proof. apply Permutation_length, sort_perm. Qed.

Lemma combine_seq_nth (a : list R) (s i : nat) (v : R) :
  In (i, v) (combine (seq s (List.length a)) a) ->
  (s <= i)%nat /\ nth (i - s) a 0%R = v.
Proof.
  revert s. induction a as [|x a IH]; simpl; intros s H; [contradiction|].
  destruct H as [H|H].
  - injection H as <- <-. split; [lia|]. now rewrite Nat.sub_diag.
  - destruct (IH _ H) as [Hle Hn]. split; [lia|].
    replace (i - s)%nat with (S (i - S s)) by lia. exact Hn.
Qed.

Lemma map_fst_combine_seq (a : list R) (s : nat) :
  map fst (combine (seq s (List.length a)) a) = seq s (List.length a).
Proof.
  revert s. induction a as [|x a IH]; simpl; intros s; [reflexivity|].
  now rewrite IH.
Qed.

Lemma np_argsort_perm (a : list R) :
  Permutation (np_argsort a) (seq 0 (List.length a)).
Proof.
  unfold np_argsort. rewrite <- (map_fst_combine_seq a 0) at 2.
  apply Permutation_map, sort_perm.
Qed.

Lemma np_argsort_sorted (a : list R) :
  StronglySorted (fun i j => (nth i a 0 <= nth j a 0)%R) (np_argsort a).
Proof.
  unfold np_argsort.
  set (leb := fun p q : nat * R => R_leb (snd p) (snd q)).
  set (L := combine (seq 0 (List.length a)) a).
  apply StronglySorted_weaken with (R1 := fun p q => leb p q = true).
  - assert (forall p, In p (sort leb L) -> nth (fst p) a 0%R = snd p) as Hval.
    { intros [i v] Hp. apply (Permutation_in _ (sort_perm leb L)) in Hp.
      apply combine_seq_nth in Hp. destruct Hp as [_ Hp].
      now rewrite Nat.sub_0_r in Hp. }
    intros p q Hp Hq H. rewrite (Hval p Hp), (Hval q Hq).
    now apply R_leb_le.
  - apply sort_sorted; unfold leb.
    + intros p q. rewrite !R_leb_le. lra.
    + intros p q r. rewrite !R_leb_le. lra.
Qed.

(** What the slice of an argsort holds, whatever way ties are ordered. *)
Lemma top_of_argsort (val : nat -> R) (p : list nat) (n k : nat) :
  Permutation p (seq 0 n) ->
  StronglySorted (fun i j => (val i <= val j)%R) p ->
  (k <= n)%nat ->
  let t := rev (last_k k p) in
  List.length t = k /\ NoDup t /\
  (forall i, In i t -> (i < n)%nat) /\
  StronglySorted (fun i j => (val j <= val i)%R) t /\
  (forall i j, In i t -> (j < n)%nat -> ~ In j t -> (val j <= val i)%R).
Proof.
  intros Hp Hs Hk t.
  assert (List.length p = n) as Hlen.
  { rewrite (Permutation_length Hp). apply length_seq. }
  assert (NoDup p) as Hnd.
  { apply (Permutation_NoDup (Permutation_sym Hp)), seq_NoDup. }
  unfold t, last_k. set (m := (List.length p - k)%nat).
  rewrite <- (firstn_skipn m p) in Hs, Hnd.
  destruct (StronglySorted_app_inv _ _ _ Hs) as [_ [Hs2 Hcross]].
  repeat split.
  - rewrite length_rev, length_skipn. unfold m. lia.
  - apply NoDup_rev. now apply NoDup_app_remove_l in Hnd.
  - intros i Hi. apply in_rev in Hi.
    assert (In i p) as Hip.
    { rewrite <- (firstn_skipn m p). apply in_or_app. now right. }
    apply (Permutation_in _ Hp) in Hip. apply in_seq in Hip. lia.
  - now apply StronglySorted_rev.
  - intros i j Hi Hj Hnot. apply in_rev in Hi.
    assert (In j p) as Hjp.
    { apply (Permutation_in _ (Permutation_sym Hp)). apply in_seq. lia. }
    rewrite <- (firstn_skipn m p) in Hjp. apply in_app_or in Hjp.
    destruct Hjp as [Hj1|Hj2].
    + now apply Hcross.
    + exfalso. apply Hnot. now apply in_rev in Hj2.
Qed.

(** ** The five largest errors *)

Lemma top_k_example : top_k 3 example_errors = [1; 4; 2]%nat.
Proof.
  unfold top_k, last_k, np_argsort, example_errors, sort. simpl.
  unfold R_leb.
  repeat (match goal with
          | |- context [Rle_dec ?x ?y] =>
              destruct (Rle_dec x y); [try (exfalso; lra) | try (exfalso; lra)]
          end; simpl).
  reflexivity.
Qed.

Lemma report_top_indices (errors : list R) (threshold : R) :
  map fst (top (report_anomalies errors threshold)) = top_anomalies errors /\
  map snd (top (report_anomalies errors threshold))
    = map (fun i => nth i errors 0%R) (top_anomalies errors).
Proof.
  unfold report_anomalies. simpl. rewrite !map_map. simpl.
  split; [apply map_id | reflexivity].
Qed.

(** C2: on an array of at least five errors the Evaluator completes and the
    five lines it prints carry five distinct valid indices, each with its
    own error, in order of decreasing error, and no index left out has an
    error above one that is printed: they are the five largest errors,
    largest first.  With three in place of five, the errors
    0.1, 0.9, 0.3, 0.05, 0.7 give the indices 1, 4, 2. *)
Theorem evaluator_reports_five_largest (errors : list R) (threshold : R) :
  (5 <= List.length errors)%nat ->
  exists stats report,
    evaluate_model_performance errors threshold = Ok (stats, report) /\
    let idx := map fst (top report) in
    idx = rev (last_k 5 (np_argsort errors)) /\
    map snd (top report) = map (fun i => nth i errors 0%R) idx /\
    List.length idx = 5%nat /\
    NoDup idx /\
    (forall i, In i idx -> (i < List.length errors)%nat) /\
    StronglySorted (fun i j => (nth j errors 0 <= nth i errors 0)%R) idx /\
    (forall i j, In i idx -> (j < List.length errors)%nat -> ~ In j idx ->
                 (nth j errors 0 <= nth i errors 0)%R) /\
    top_k 3 example_errors = [1; 4; 2]%nat.
Proof.
  intros Hlen.
  destruct (report_top_indices errors threshold) as [Hfst Hsnd].
  pose proof (top_of_argsort (fun i => nth i errors 0%R) (np_argsort errors)
                (List.length errors) 5 (np_argsort_perm errors)
                (np_argsort_sorted errors) Hlen) as Htop.
  cbv zeta in Htop. fold (top_k 5 errors) in Htop.
  fold (top_anomalies errors) in Htop.
  destruct Htop as [H1 [H2 [H3 [H4 H5]]]].
  destruct errors as [|e errors]; [simpl in Hlen; lia|].
  eexists. eexists. split; [reflexivity|]. cbv zeta.
  rewrite Hsnd, Hfst.
  repeat split; try assumption.
  apply top_k_example.
Qed.

Lemma evaluator_reports_five_largest_witness :
  exists stats report,
    evaluate_model_performance example_errors (1 / 2) = Ok (stats, report) /\
    let idx := map fst (top report) in
    idx = rev (last_k 5 (np_argsort example_errors)) /\
    map snd (top report) = map (fun i => nth i example_errors 0%R) idx /\
    List.length idx = 5%nat /\
    NoDup idx /\
    (forall i, In i idx -> (i < List.length example_errors)%nat) /\
    StronglySorted
      (fun i j => (nth j example_errors 0 <= nth i example_errors 0)%R) idx /\
    (forall i j, In i idx -> (j < List.length example_errors)%nat ->
                 ~ In j idx ->
                 (nth j example_errors 0 <= nth i example_errors 0)%R) /\
    top_k 3 example_errors = [1; 4; 2]%nat.
Proof.
  apply (evaluator_reports_five_largest example_errors (1 / 2)).
  simpl. lia.
Defined.

(** ** The threshold grows with the percentile *)

Lemma lerp_linear (a b t : R) : lerp a b t = (a + (b - a) * t)%R.
Proof. unfold lerp. destruct (Rle_dec (1 / 2) t); ring. Qed.

Lemma floor_index (h : R) :
  (0 <= h)%R ->
  (INR (Z.to_nat (Int_part h)) <= h < INR (Z.to_nat (Int_part h)) + 1)%R.
Proof.
  intros Hh. destruct (base_Int_part h) as [H1 H2].
  assert (0 <= Int_part h)%Z as Hz.
  { assert (-1 < Int_part h)%Z; [|lia]. apply lt_IZR. lra. }
  rewrite INR_IZR_INZ, Z2Nat.id by assumption. lra.
Qed.

Lemma linear_quantile_bounds (arr : list R) (h : R) :
  StronglySorted Rle arr ->
  (0 <= h <= INR (List.length arr - 1))%R ->
  (1 <= List.length arr)%nat ->
  let lo := Z.to_nat (Int_part h) in
  (lo <= List.length arr - 1)%nat /\
  (nth lo arr 0 <= linear_quantile arr h)%R /\
  (linear_quantile arr h
     <= nth (Nat.min (lo + 1) (List.length arr - 1)) arr 0)%R.
Proof.
  intros Hs [H0 Hn] Hlen lo.
  destruct (floor_index h H0) as [Hlo Hhi]. fold lo in Hlo, Hhi.
  assert (lo <= List.length arr - 1)%nat as Hle.
  { apply INR_le. lra. }
  assert (nth lo arr 0 <= nth (Nat.min (lo + 1) (List.length arr - 1)) arr 0)%R
    as Hab.
  { apply StronglySorted_nth; [assumption | lia]. }
  unfold linear_quantile. fold lo. rewrite lerp_linear.
  split; [assumption|]. split; nra.
Qed.

Lemma linear_quantile_monotone (arr : list R) (h1 h2 : R) :
  StronglySorted Rle arr ->
  (1 <= List.length arr)%nat ->
  (0 <= h1)%R -> (h1 <= h2)%R -> (h2 <= INR (List.length arr - 1))%R ->
  (linear_quantile arr h1 <= linear_quantile arr h2)%R.
Proof.
  intros Hs Hlen H0 H12 Hn.
  destruct (linear_quantile_bounds arr h1 Hs) as [Hl1 [Ha1 Hb1]];
    [lra | assumption |].
  destruct (linear_quantile_bounds arr h2 Hs) as [Hl2 [Ha2 Hb2]];
    [lra | assumption |].
  destruct (floor_index h1) as [Hf1 Hc1]; [lra|].
  destruct (floor_index h2) as [Hf2 Hc2]; [lra|].
  set (lo1 := Z.to_nat (Int_part h1)) in *.
  set (lo2 := Z.to_nat (Int_part h2)) in *.
  assert (lo1 <= lo2)%nat as Hlo.
  { assert (lo1 < lo2 + 1)%nat; [|lia].
    apply INR_lt. rewrite plus_INR. simpl. lra. }
  destruct (Nat.eq_dec lo1 lo2) as [Heq|Hne].
  - unfold linear_quantile. fold lo1 lo2. rewrite !lerp_linear, Heq.
    assert (nth lo2 arr 0
            <= nth (Nat.min (lo2 + 1) (List.length arr - 1)) arr 0)%R as Hab.
    { apply StronglySorted_nth; [assumption | lia]. }
    rewrite Heq in Hf1, Hc1. nra.
  - assert (nth (Nat.min (lo1 + 1) (List.length arr - 1)) arr 0
            <= nth lo2 arr 0)%R as Hmid.
    { apply StronglySorted_nth; [assumption | lia]. }
    lra.
Qed.

(** C6: on an array of errors that is not empty, for percentiles
    [0 <= P1 <= P2 <= 100], both thresholds are computed and the one at
    [P1] is at most the one at [P2]. *)
Theorem threshold_monotone_in_percentile (errors : list R) (P1 P2 : R) :
  errors <> [] ->
  (0 <= P1)%R -> (P1 <= P2)%R -> (P2 <= 100)%R ->
  exists t1 t2,
    np_percentile errors P1 = Ok t1 /\
    np_percentile errors P2 = Ok t2 /\
    (t1 <= t2)%R.
Proof.
  intros Hne H0 H12 H100. unfold np_percentile.
  destruct (Rle_dec 0 P1) as [_|Hn]; [|exfalso; lra].
  destruct (Rle_dec P1 100) as [_|Hn]; [|exfalso; lra].
  destruct (Rle_dec 0 P2) as [_|Hn]; [|exfalso; lra].
  destruct (Rle_dec P2 100) as [_|Hn]; [|exfalso; lra].
  destruct errors as [|e errors]; [congruence|].
  eexists. eexists. split; [reflexivity|]. split; [reflexivity|].
  set (a := e :: errors).
  assert (1 <= List.length (np_sort a))%nat as Hlen.
  { rewrite np_sort_length. simpl. lia. }
  pose proof (pos_INR (List.length (np_sort a) - 1)) as Hpos.
  apply linear_quantile_monotone.
  - apply np_sort_sorted.
  - assumption.
  - apply Rmult_le_pos; lra.
  - apply Rmult_le_compat_l; lra.
  - rewrite <- (Rmult_1_r (INR (List.length (np_sort a) - 1))) at 2.
    apply Rmult_le_compat_l; lra.
Qed.

Lemma threshold_monotone_in_percentile_witness :
  exists t1 t2,
    np_percentile example_errors 50 = Ok t1 /\
    np_percentile example_errors 95 = Ok t2 /\
    (t1 <= t2)%R.
Proof.
  apply (threshold_monotone_in_percentile example_errors 50 95).
  - discriminate.
  - lra.
  - lra.
  - lra.
Defined.

(** ** Standard scaling *)

Lemma sum_cons (a : R) (xs : list R) : sum (a :: xs) = (a + sum xs)%R.
Proof. reflexivity. Qed.

Lemma sum_ext (f g : R -> R) (xs : list R) :
  (forall x, In x xs -> f x = g x) -> sum (map f xs) = sum (map g xs).
Proof.
  induction xs as [|a xs IH]; intros H; [reflexivity|].
  simpl map. rewrite !sum_cons. rewrite H by now left.
  rewrite IH; [reflexivity|].
  intros x Hx. apply H. now right.
Qed.

Lemma sum_map_scale (f : R -> R) (k : R) (xs : list R) :
  sum (map (fun x => (f x * k)%R) xs) = (sum (map f xs) * k)%R.
Proof.
  induction xs as [|a xs IH]; [simpl; ring|].
  simpl map. rewrite !sum_cons, IH. ring.
Qed.

Lemma sum_map_zero (xs : list R) : sum (map (fun _ => 0%R) xs) = 0%R.
Proof.
  induction xs as [|a xs IH]; [reflexivity|].
  simpl map. rewrite sum_cons, IH. ring.
Qed.

Lemma sum_scaled (m s : R) (xs : list R) :
  sum (map (fun x => ((x - m) / s)%R) xs)
  = ((sum xs - INR (List.length xs) * m) / s)%R.
Proof.
  induction xs as [|a xs IH].
  - simpl. unfold Rdiv. ring.
  - simpl map. simpl List.length. rewrite !sum_cons, IH, S_INR.
    unfold Rdiv. ring.
Qed.

Lemma sum_squares_nonneg (m : R) (xs : list R) :
  (0 <= sum (map (fun x => (x - m) * (x - m)) xs))%R.
Proof.
  induction xs as [|a xs IH]; [simpl; lra|].
  simpl map. rewrite sum_cons.
  pose proof (Rle_0_sqr (a - m)) as Hsq. unfold Rsqr in Hsq. lra.
Qed.

Lemma sum_squares_zero (m : R) (xs : list R) :
  sum (map (fun x => (x - m) * (x - m))%R xs) = 0%R ->
  forall x, In x xs -> x = m.
Proof.
  induction xs as [|a xs IH]; intros H x Hx; [contradiction|].
  simpl map in H. rewrite sum_cons in H.
  pose proof (sum_squares_nonneg m xs) as Hnn.
  pose proof (Rle_0_sqr (a - m)) as Hsq. unfold Rsqr in Hsq.
  assert ((a - m) * (a - m) = 0)%R as Ha by lra.
  destruct Hx as [<-|Hx].
  - apply Rmult_integral in Ha. lra.
  - apply IH; [lra | assumption].
Qed.

Lemma INR_length_nonzero {A : Type} (xs : list A) :
  (1 <= List.length xs)%nat -> INR (List.length xs) <> 0%R.
Proof. intros H. apply not_0_INR. lia. Qed.

Lemma var_nonneg (xs : list R) : (1 <= List.length xs)%nat -> (0 <= var xs)%R.
Proof.
  intros H. unfold var, mean at 1. rewrite length_map.
  apply Rmult_le_pos; [apply sum_squares_nonneg|].
  apply Rlt_le, Rinv_0_lt_compat, lt_0_INR. lia.
Qed.

Lemma var_zero_constant (xs : list R) :
  (1 <= List.length xs)%nat -> var xs = 0%R -> constant xs.
Proof.
  intros Hlen Hv. unfold var, mean at 1 in Hv. rewrite length_map in Hv.
  assert (sum (map (fun x => (x - mean xs) * (x - mean xs))%R xs) = 0%R) as Hs.
  { pose proof (INR_length_nonzero xs Hlen) as Hn.
    unfold Rdiv in Hv. apply Rmult_integral in Hv. destruct Hv as [Hv|Hv].
    - exact Hv.
    - exfalso. revert Hv. now apply Rinv_neq_0_compat. }
  intros x y Hx Hy.
  rewrite (sum_squares_zero _ _ Hs x Hx), (sum_squares_zero _ _ Hs y Hy).
  reflexivity.
Qed.

Lemma sum_constant (a : R) (xs : list R) :
  (forall x, In x xs -> x = a) -> sum xs = (INR (List.length xs) * a)%R.
Proof.
  induction xs as [|b xs IH]; intros H.
  - simpl. ring.
  - simpl List.length. rewrite sum_cons, S_INR.
    rewrite IH by (intros x Hx; apply H; now right).
    rewrite (H b) by now left. ring.
Qed.

Lemma constant_mean (xs : list R) :
  (1 <= List.length xs)%nat -> constant xs ->
  forall x, In x xs -> x = mean xs.
Proof.
  intros Hlen Hc x Hx. unfold mean.
  rewrite (sum_constant x) by (intros y Hy; now apply Hc).
  field. now apply INR_length_nonzero.
Qed.

Lemma mean_scaled (s : R) (xs : list R) :
  (1 <= List.length xs)%nat ->
  mean (map (fun x => ((x - mean xs) / s)%R) xs) = 0%R.
Proof.
  intros Hlen. unfold mean at 1. rewrite length_map, sum_scaled.
  replace (sum xs - INR (List.length xs) * mean xs)%R with 0%R.
  - unfold Rdiv. ring.
  - unfold mean. field. now apply INR_length_nonzero.
Qed.

Lemma var_scaled (s : R) (xs : list R) :
  (1 <= List.length xs)%nat ->
  var (map (fun x => ((x - mean xs) / s)%R) xs) = (var xs * (/ s * / s))%R.
Proof.
  intros Hlen. unfold var at 1. rewrite (mean_scaled s xs Hlen).
  rewrite map_map. unfold var. set (m := mean xs).
  unfold mean. rewrite !length_map.
  rewrite (sum_ext _ (fun x => ((x - m) * (x - m) * (/ s * / s))%R)).
  - rewrite (sum_map_scale (fun x => ((x - m) * (x - m))%R)).
    unfold Rdiv. ring.
  - intros x _. unfold Rdiv. ring.
Qed.

Lemma std_zeros (xs : list R) : (forall x, In x xs -> x = 0%R) -> std xs = 0%R.
Proof.
  intros H. unfold std, var.
  assert (mean xs = 0%R) as Hm.
  { unfold mean. rewrite (sum_constant 0 xs H). unfold Rdiv. ring. }
  rewrite Hm. unfold mean. rewrite length_map.
  rewrite (sum_ext _ (fun _ => 0%R)).
  - rewrite sum_map_zero. unfold Rdiv. rewrite Rmult_0_l. apply sqrt_0.
  - intros x Hx. rewrite (H x Hx). ring.
Qed.

(** A feature, once scaled by its own mean and scale. *)
Lemma scaled_feature (c : list R) :
  (1 <= List.length c)%nat ->
  let c' := map (fun x => ((x - mean c) / handle_zeros_in_scale (std c))%R) c in
  List.length c' = List.length c /\
  mean c' = 0%R /\
  (~ constant c -> std c' = 1%R) /\
  (constant c -> (forall x, In x c' -> x = 0%R) /\ std c' = 0%R).
Proof.
  intros Hlen c'. split; [apply length_map|].
  split; [now apply mean_scaled|]. split.
  - intros Hnc. unfold c', std at 1. rewrite var_scaled by assumption.
    pose proof (var_nonneg c Hlen) as Hv.
    assert (var c <> 0%R) as Hv0.
    { intros H. apply Hnc. now apply var_zero_constant. }
    assert (0 < sqrt (var c))%R as Hs by (apply sqrt_lt_R0; lra).
    unfold handle_zeros_in_scale, std.
    destruct (Req_dec_T (sqrt (var c)) 0) as [E|_]; [lra|].
    replace (var c * (/ sqrt (var c) * / sqrt (var c)))%R with 1%R.
    + apply sqrt_1.
    + rewrite <- (sqrt_sqrt (var c)) at 1 by assumption. field. lra.
  - intros Hc.
    assert (forall x, In x c' -> x = 0%R) as Hz.
    { intros x Hx. unfold c' in Hx. apply in_map_iff in Hx.
      destruct Hx as [y [<- Hy]].
      rewrite <- (constant_mean c Hlen Hc y Hy). unfold Rdiv. ring. }
    split; [exact Hz | now apply std_zeros].
Qed.

Lemma scale_columns_fitted (f : list R -> R) (X : ndarray) :
  scale_columns X (map mean X) (map f X)
  = map (fun c => map (fun x => ((x - mean c) / f c)%R) c) X.
Proof. induction X as [|c X IH]; simpl; [reflexivity|]. now rewrite IH. Qed.

Lemma fit_transform_value (X : ndarray) (s : StandardScaler) :
  (1 <= n_samples X)%nat ->
  StandardScaler_fit_transform X s
  = (Ok (map (fun c =>
                map (fun x => ((x - mean c)
                               / handle_zeros_in_scale (std c))%R) c) X),
     Some {| mean_ := map mean X;
             var_ := map var X;
             scale_ := map (fun c => handle_zeros_in_scale (std c)) X |}).
Proof.
  intros H. unfold StandardScaler_fit_transform, bind, StandardScaler_fit.
  destruct (n_samples X =? 0)%nat eqn:E; [apply Nat.eqb_eq in E; lia|].
  unfold put, StandardScaler_transform, bind, get. rewrite E.
  cbn [mean_ scale_]. unfold n_features.
  rewrite length_map, Nat.eqb_refl. unfold ret.
  now rewrite (scale_columns_fitted (fun c => handle_zeros_in_scale (std c))).
Qed.

Lemma Forall2_map_r {A B : Type} (P : A -> B -> Prop) (g : A -> B) (l : list A) :
  (forall a, In a l -> P a (g a)) -> Forall2 P l (map g l).
Proof.
  induction l as [|a l IH]; simpl; intros H; constructor.
  - apply H. now left.
  - apply IH. intros b Hb. apply H. now right.
Qed.

(** C7, as the code has it: on a matrix of [N >= 1] rows and [D >= 1]
    columns, fitting and applying the scaler completes and returns a matrix
    of the same shape; in exact arithmetic every column of it has mean 0;
    a column that takes two different values comes out with population
    standard deviation 1, and a column that takes one value only comes out
    as zeros, with standard deviation 0. *)
Theorem standard_scaling_shape_and_moments
    (X : ndarray) (N D : nat) (s : StandardScaler) :
  (1 <= N)%nat -> (1 <= D)%nat ->
  List.length X = D ->
  Forall (fun c => List.length c = N) X ->
  exists out scaler,
    StandardScaler_fit_transform X s = (Ok out, Some scaler) /\
    List.length out = D /\
    Forall (fun c => List.length c = N) out /\
    Forall (fun c => mean c = 0%R) out /\
    Forall2 (fun c c' =>
               (~ constant c -> std c' = 1%R) /\
               (constant c -> (forall x, In x c' -> x = 0%R) /\ std c' = 0%R))
            X out.
Proof.
  intros HN HD Hlen Hcols.
  assert (1 <= n_samples X)%nat as Hs.
  { destruct X as [|c X]; simpl in *; [lia|].
    inversion Hcols; subst. lia. }
  rewrite (fit_transform_value X s Hs).
  eexists. eexists. split; [reflexivity|].
  rewrite Forall_forall in Hcols.
  assert (forall c, In c X -> (1 <= List.length c)%nat) as Hpos.
  { intros c Hc. rewrite (Hcols c Hc). exact HN. }
  split; [now rewrite length_map|]. split; [|split].
  - rewrite Forall_forall. intros c' Hc'. apply in_map_iff in Hc'.
    destruct Hc' as [c [<- Hc]]. rewrite length_map. now apply Hcols.
  - rewrite Forall_forall. intros c' Hc'. apply in_map_iff in Hc'.
    destruct Hc' as [c [<- Hc]].
    destruct (scaled_feature c (Hpos c Hc)) as [_ [Hm _]]. exact Hm.
  - apply Forall2_map_r. intros c Hc.
    destruct (scaled_feature c (Hpos c Hc)) as [_ [_ [H1 H2]]].
    split; assumption.
Qed.

Lemma standard_scaling_shape_and_moments_witness :
  exists out scaler,
    StandardScaler_fit_transform two_features None = (Ok out, Some scaler) /\
    List.length out = 2%nat /\
    Forall (fun c => List.length c = 2%nat) out /\
    Forall (fun c => mean c = 0%R) out /\
    Forall2 (fun c c' =>
               (~ constant c -> std c' = 1%R) /\
               (constant c -> (forall x, In x c' -> x = 0%R) /\ std c' = 0%R))
            two_features out.
Proof.
  apply (standard_scaling_shape_and_moments two_features 2 2 None).
  - lia.
  - lia.
  - reflexivity.
  - repeat constructor.
Defined.

Lemma constant_3_3 : constant [3; 3]%R.
Proof.
  intros x y Hx Hy. simpl in Hx, Hy.
  destruct Hx as [<-|[<-|[]]]; destruct Hy as [<-|[<-|[]]]; reflexivity.
Qed.

(** C7 as the spec states it fails: a feature that is 3 on both samples is
    scaled to zeros, and the standard deviation of the scaled column is 0,
    at distance 1 from 1. *)
Lemma constant_feature_has_zero_deviation :
  exists scaler,
    StandardScaler_fit_transform constant_feature None
      = (Ok [[0; 0]%R], Some scaler) /\
    std [0; 0]%R = 0%R /\
    Rabs (std [0; 0]%R - 1) = 1%R.
Proof.
  assert (std [0; 0]%R = 0%R) as Hstd.
  { apply std_zeros. intros x [<-|[<-|[]]]; reflexivity. }
  eexists. split; [|split].
  - unfold constant_feature. rewrite fit_transform_value by (simpl; lia).
    f_equal. f_equal.
    assert (1 <= List.length [3; 3]%R)%nat as Hlen by (simpl; lia).
    destruct (scaled_feature [3; 3]%R Hlen) as [_ [_ [_ H]]].
    destruct (H constant_3_3) as [Hz _].
    simpl map in *.
    rewrite (Hz _ (or_introl eq_refl)). reflexivity.
  - exact Hstd.
  - rewrite Hstd. replace (0 - 1)%R with (- (1))%R by ring.
    rewrite Rabs_Ropp. apply Rabs_R1.
Qed.

(** ** The split does not depend on the state of the global generator *)

(** C8: two runs of the Loader on the same table, whatever the states [g1]
    and [g2] of NumPy's global generator when they start, return the same
    outcome (the same training rows, the same test rows and the same fitted
    scaler, or the same exception), and neither run touches the global
    generator: the permutation comes from a generator seeded with 42. *)
Theorem loader_split_is_reproducible
    (rng : Type) (RandomState : Z -> rng)
    (permutation : nat -> rng -> list nat * rng)
    (data : RawFrame) (g1 g2 : rng) :
  fst (load_and_preprocess_data rng RandomState permutation data g1)
  = fst (load_and_preprocess_data rng RandomState permutation data g2) /\
  snd (load_and_preprocess_data rng RandomState permutation data g1) = g1 /\
  snd (load_and_preprocess_data rng RandomState permutation data g2) = g2.
Proof.
  unfold load_and_preprocess_data, bind, lift, with_object.
  destruct (loader_preprocessing data) as [df|e]; [|now repeat split].
  destruct (to_numpy df) as [X|e]; [|now repeat split].
  destruct (StandardScaler_fit_transform X None) as [[out|e] scaler];
    [|now repeat split].
  unfold train_test_split, raise, ret.
  destruct (_ =? 0)%nat; now repeat split.
Qed.

(** Without a seed the split is drawn from the global generator and changes
    with its state. *)
Lemma unseeded_split_depends_on_generator :
  fst (train_test_split nat counter_seed counter_permutation
         [1; 2; 3; 4; 5]%nat 20 None 0)
  <> fst (train_test_split nat counter_seed counter_permutation
            [1; 2; 3; 4; 5]%nat 20 None 1).
Proof. discriminate. Qed.

Lemma seeded_split_sizes :
  fst (train_test_split nat counter_seed counter_permutation
         [1; 2; 3; 4; 5; 6; 7; 8; 9; 10]%nat 20 (Some 42%Z) 7)
  = Ok ([2; 3; 4; 5; 6; 7; 8; 9]%nat, [10; 1]%nat).
Proof. reflexivity. Qed.

(** ** The Scorer reads the scaler and does not write it *)

Lemma transform_keeps_scaler (X : ndarray) (scaler : StandardScaler) :
  snd (StandardScaler_transform X scaler) = scaler.
Proof.
  unfold StandardScaler_transform, bind, get.
  destruct scaler as [f|]; [|reflexivity].
  destruct (n_samples X =? 0)%nat; [reflexivity|].
  destruct (n_features X =? List.length (mean_ f))%nat; reflexivity.
Qed.

Lemma scorer_keeps_scaler (data : RawFrame)
    (model : list (list R) -> list (list R)) (threshold : R)
    (scaler : StandardScaler) :
  snd (detect_and_evaluate_fraud data model threshold scaler) = scaler.
Proof.
  unfold detect_and_evaluate_fraud, bind, lift.
  destruct (scorer_preprocessing data) as [df|e]; [|reflexivity].
  destruct (to_numpy df) as [X|e]; [|reflexivity].
  pose proof (transform_keeps_scaler X scaler) as H.
  destruct (StandardScaler_transform X scaler) as [[out|e] s']; simpl in H;
    subst s'; reflexivity.
Qed.

(** Fitting, by contrast, writes the statistics of the matrix it is given. *)
Lemma fit_writes_scaler :
  snd (StandardScaler_fit constant_feature None)
  = Some {| mean_ := [mean [3; 3]%R];
            var_ := [var [3; 3]%R];
            scale_ := [handle_zeros_in_scale (std [3; 3]%R)] |} /\
  snd (StandardScaler_fit constant_feature None) <> None.
Proof. split; [reflexivity | discriminate]. Qed.

(** C9: whatever dataset it scores and whether it completes or raises,
    [detect_and_evaluate_fraud] leaves the scaler object as it found it
    (the means, variances and scales fitted on the training data), and so
    does scoring any list of datasets one after the other; when it
    completes, the matrix it scored was scaled with these statistics. *)
Theorem scorer_never_refits_scaler
    (model : list (list R) -> list (list R)) (threshold : R)
    (scaler : StandardScaler) :
  (forall data,
      snd (detect_and_evaluate_fraud data model threshold scaler) = scaler) /\
  (forall datasets,
      fold_left
        (fun s data => snd (detect_and_evaluate_fraud data model threshold s))
        datasets scaler = scaler) /\
  (forall X,
      match StandardScaler_transform X scaler, scaler with
      | (Ok out, s'), Some f =>
          s' = scaler /\ out = scale_columns X (mean_ f) (scale_ f)
      | (Ok _, _), None => False
      | (Raise _, s'), _ => s' = scaler
      end).
Proof.
  split; [|split].
  - intros data. apply scorer_keeps_scaler.
  - intros datasets. induction datasets as [|d ds IH]; simpl; [reflexivity|].
    now rewrite scorer_keeps_scaler.
  - intros X. unfold StandardScaler_transform, bind, get, raise, ret.
    destruct scaler as [f|]; [|reflexivity].
    destruct (n_samples X =? 0)%nat; [reflexivity|].
    destruct (n_features X =? List.length (mean_ f))%nat;
      [split; reflexivity | reflexivity].
Qed.

(** ** Above the threshold, strictly *)

Lemma count_true_greater (errors : list R) (threshold : R) :
  count_true (greater errors threshold)
  = List.length (filter (fun e => R_gtb e threshold) errors).
Proof.
  unfold count_true, greater.
  induction errors as [|e errors IH]; simpl; [reflexivity|].
  destruct (R_gtb e threshold); simpl; now rewrite IH.
Qed.

Lemma scorer_report (data : RawFrame)
    (model : list (list R) -> list (list R)) (threshold : R)
    (scaler s' : StandardScaler) (det : detection) :
  detect_and_evaluate_fraud data model threshold scaler = (Ok det, s') ->
  printed det = report_anomalies (saved_errors det) threshold.
Proof.
  unfold detect_and_evaluate_fraud, bind, lift.
  destruct (scorer_preprocessing data) as [df|e]; [|discriminate].
  destruct (to_numpy df) as [X|e]; [|discriminate].
  destruct (StandardScaler_transform X scaler) as [[out|e] s'']; [|discriminate].
  unfold ret. intros H. injection H as <- _. reflexivity.
Qed.

(** C10: the Evaluator and the Scorer build their report with the same
    comparison: the sample at index [i], of error [e], is flagged exactly
    when [e > threshold]; a sample whose error is the threshold itself is
    not flagged; the number of anomalies is the number of errors strictly
    above the threshold. *)
Theorem anomaly_is_strictly_above_threshold
    (errors : list R) (threshold : R) (i : nat) (e : R) :
  nth_error errors i = Some e ->
  let flags := anomalies (report_anomalies errors threshold) in
  (nth_error flags i = Some true <-> (e > threshold)%R) /\
  (e = threshold -> nth_error flags i = Some false) /\
  num_anomalies (report_anomalies errors threshold)
  = List.length (filter (fun x => R_gtb x threshold) errors) /\
  (exists stats,
      evaluate_model_performance errors threshold
      = Ok (stats, report_anomalies errors threshold)) /\
  (forall data model scaler s' det,
      detect_and_evaluate_fraud data model threshold scaler = (Ok det, s') ->
      printed det = report_anomalies (saved_errors det) threshold).
Proof.
  intros Hi flags.
  assert (nth_error flags i = Some (R_gtb e threshold)) as Hflag.
  { unfold flags, report_anomalies, greater. simpl.
    now rewrite nth_error_map, Hi. }
  split; [|split; [|split; [|split]]].
  - rewrite Hflag, <- R_gtb_gt. split; [now intros [= ->] | now intros ->].
  - intros ->. rewrite Hflag. f_equal.
    destruct (R_gtb threshold threshold) eqn:E; [|reflexivity].
    apply R_gtb_gt in E. lra.
  - apply count_true_greater.
  - destruct errors as [|x errors]; [destruct i; discriminate|].
    eexists. reflexivity.
  - intros data model scaler s' det. apply scorer_report.
Qed.

Lemma anomaly_is_strictly_above_threshold_witness :
  let flags := anomalies (report_anomalies example_errors (7 / 10)) in
  (nth_error flags 4 = Some true <-> (7 / 10 > 7 / 10)%R) /\
  (7 / 10 = 7 / 10 -> nth_error flags 4 = Some false)%R /\
  num_anomalies (report_anomalies example_errors (7 / 10))
  = List.length (filter (fun x => R_gtb x (7 / 10)) example_errors) /\
  (exists stats,
      evaluate_model_performance example_errors (7 / 10)
      = Ok (stats, report_anomalies example_errors (7 / 10))) /\
  (forall data model scaler s' det,
      detect_and_evaluate_fraud data model (7 / 10) scaler = (Ok det, s') ->
      printed det = report_anomalies (saved_errors det) (7 / 10)).
Proof.
  apply (anomaly_is_strictly_above_threshold example_errors (7 / 10) 4 (7 / 10)).
  reflexivity.
Defined.

(** ** The functions at work on the sample inputs *)

Lemma np_sort_example :
  np_sort example_errors = [5 / 100; 1 / 10; 3 / 10; 7 / 10; 9 / 10]%R.
Proof.
  unfold np_sort, example_errors, sort. simpl. unfold R_leb.
  repeat (match goal with
          | |- context [Rle_dec ?x ?y] =>
              destruct (Rle_dec x y); [try (exfalso; lra) | try (exfalso; lra)]
          end; simpl).
  reflexivity.
Qed.

Lemma np_percentile_example :
  np_percentile example_errors 50 = Ok (3 / 10)%R /\
  np_percentile example_errors 100 = Ok (9 / 10)%R /\
  np_percentile example_errors 101
  = Raise (ValueError "Percentiles must be in the range [0, 100]").
Proof.
  unfold np_percentile.
  repeat (match goal with
          | |- context [Rle_dec ?x ?y] =>
              destruct (Rle_dec x y); [try (exfalso; lra) | try (exfalso; lra)]
          end).
  rewrite np_sort_example. unfold example_errors, linear_quantile.
  cbn [List.length Nat.sub].
  replace (Int_part (INR 4 * (50 / 100))) with 2%Z
    by (apply Int_part_spec; simpl; lra).
  replace (Int_part (INR 4 * (100 / 100))) with 4%Z
    by (apply Int_part_spec; simpl; lra).
  rewrite !lerp_linear. simpl.
  repeat split; f_equal; lra.
Qed.

Lemma loader_completes_on_training_table :
  exists train_data test_data scaler,
    load_and_preprocess_data nat counter_seed counter_permutation
      training_table 0
    = (Ok (train_data, test_data, Some scaler), 0%nat) /\
    List.length train_data = 2%nat /\
    List.length test_data = 1%nat /\
    List.length (mean_ scaler) = 2%nat.
Proof. do 3 eexists. split; [reflexivity|]. repeat split. Qed.

Lemma scorer_completes_on_new_dataset :
  let scaler := Some {| mean_ := [0; 2]%R; var_ := [1; 1]%R;
                        scale_ := [1; 1]%R |} in
  exists det,
    detect_and_evaluate_fraud dataset_without_california (fun rows => rows)
      (1 / 2) scaler
    = (Ok det, scaler) /\
    List.length (saved_errors det) = 3%nat /\
    total_samples (printed det) = 3%nat.
Proof. eexists. split; [reflexivity|]. split; reflexivity. Qed.

(** * Further properties of the pipeline *)

(** ** Reconstruction errors *)

Lemma sum_nonneg (xs : list R) :
  (forall x, In x xs -> (0 <= x)%R) -> (0 <= sum xs)%R.
Proof.
  induction xs as [|a xs IH]; intros H; [simpl; lra|].
  rewrite sum_cons.
  assert (0 <= a)%R by (apply H; now left).
  assert (0 <= sum xs)%R by (apply IH; intros x Hx; apply H; now right).
  lra.
Qed.

Lemma sum_zero (xs : list R) :
  (forall x, In x xs -> x = 0%R) -> sum xs = 0%R.
Proof.
  intros H. rewrite (sum_constant 0 xs H). ring.
Qed.

Lemma mean_nonneg (xs : list R) :
  (forall x, In x xs -> (0 <= x)%R) -> (0 <= mean xs)%R.
Proof.
  intros H. unfold mean. destruct xs as [|a xs].
  - simpl. unfold Rdiv. rewrite Rmult_0_l. lra.
  - apply Rmult_le_pos; [now apply sum_nonneg|].
    apply Rlt_le, Rinv_0_lt_compat, lt_0_INR. simpl. lia.
Qed.

Lemma combine_same {A : Type} (l : list A) (p : A * A) :
  In p (combine l l) -> fst p = snd p.
Proof.
  induction l as [|a l IH]; simpl; [contradiction|].
  intros [<-|H]; [reflexivity | now apply IH].
Qed.

Lemma reconstruction_error_nonneg (reconstruction row : list R) :
  (0 <= reconstruction_error reconstruction row)%R.
Proof.
  unfold reconstruction_error. apply mean_nonneg.
  intros x Hx. apply in_map_iff in Hx. destruct Hx as [p [<- _]].
  pose proof (Rle_0_sqr (fst p - snd p)) as H. exact H.
Qed.

Lemma reconstruction_error_exact (row : list R) :
  reconstruction_error row row = 0%R.
Proof.
  unfold reconstruction_error, mean. rewrite sum_zero.
  - unfold Rdiv. apply Rmult_0_l.
  - intros x Hx. apply in_map_iff in Hx. destruct Hx as [p [<- Hp]].
    rewrite (combine_same _ _ Hp). ring.
Qed.

(** Every reconstruction error is a mean of squares, so it is never
    negative; a sample that the model reproduces exactly has error 0, and on
    a model that reproduces every sample no sample is above a threshold that
    is not negative. *)
Theorem reconstruction_errors_nonnegative
    (reconstructions data : list (list R)) (threshold : R) :
  (0 <= threshold)%R ->
  Forall (fun e => (0 <= e)%R) (reconstruction_errors_of reconstructions data) /\
  Forall (fun e => e = 0%R) (reconstruction_errors_of data data) /\
  num_anomalies
    (report_anomalies (reconstruction_errors_of data data) threshold) = 0%nat.
Proof.
  intros Ht.
  assert (Forall (fun e => e = 0%R) (reconstruction_errors_of data data)) as Hz.
  { unfold reconstruction_errors_of. rewrite Forall_forall. intros e He.
    apply in_map_iff in He. destruct He as [p [<- Hp]].
    rewrite (combine_same _ _ Hp). apply reconstruction_error_exact. }
  split; [|split].
  - unfold reconstruction_errors_of. rewrite Forall_forall. intros e He.
    apply in_map_iff in He. destruct He as [p [<- _]].
    apply reconstruction_error_nonneg.
  - exact Hz.
  - unfold report_anomalies. cbn [num_anomalies].
    rewrite count_true_greater.
    induction Hz as [|e es He Hes IH]; [reflexivity|].
    simpl. destruct (R_gtb e threshold) eqn:E; [|exact IH].
    apply R_gtb_gt in E. lra.
Qed.

Lemma reconstruction_errors_nonnegative_witness :
  Forall (fun e => (0 <= e)%R)
         (reconstruction_errors_of [[1; 2]%R] [[3; 5]%R]) /\
  Forall (fun e => e = 0%R) (reconstruction_errors_of [[3; 5]%R] [[3; 5]%R]) /\
  num_anomalies
    (report_anomalies (reconstruction_errors_of [[3; 5]%R] [[3; 5]%R]) (1 / 2))
  = 0%nat.
Proof.
  apply (reconstruction_errors_nonnegative [[1; 2]%R] [[3; 5]%R] (1 / 2)).
  lra.
Defined.

(** ** Counting anomalies *)

Lemma filter_length_le {A : Type} (p : A -> bool) (l : list A) :
  (List.length (filter p l) <= List.length l)%nat.
Proof.
  induction l as [|a l IH]; simpl; [lia|]. destruct (p a); simpl; lia.
Qed.

Lemma filter_length_mono {A : Type} (p q : A -> bool) (l : list A) :
  (forall a, In a l -> p a = true -> q a = true) ->
  (List.length (filter p l) <= List.length (filter q l))%nat.
Proof.
  induction l as [|a l IH]; intros H; simpl; [lia|].
  assert (List.length (filter p l) <= List.length (filter q l))%nat as Hl.
  { apply IH. intros b Hb. apply H. now right. }
  destruct (p a) eqn:Hp.
  - rewrite (H a (or_introl eq_refl) Hp). simpl. lia.
  - destruct (q a); simpl; lia.
Qed.

(** The number of anomalies printed never exceeds the number of samples,
    and a higher threshold never flags more samples than a lower one. *)
Theorem num_anomalies_antitone_in_threshold (errors : list R) (t1 t2 : R) :
  (t1 <= t2)%R ->
  (num_anomalies (report_anomalies errors t2)
   <= num_anomalies (report_anomalies errors t1))%nat /\
  (num_anomalies (report_anomalies errors t1)
   <= total_samples (report_anomalies errors t1))%nat.
Proof.
  intros Ht. unfold report_anomalies. cbn [num_anomalies total_samples].
  rewrite !count_true_greater. split.
  - apply filter_length_mono. intros e _ He.
    apply R_gtb_gt in He. apply R_gtb_gt. lra.
  - apply filter_length_le.
Qed.

Lemma num_anomalies_antitone_in_threshold_witness :
  (num_anomalies (report_anomalies example_errors (1 / 2))
   <= num_anomalies (report_anomalies example_errors (1 / 5)))%nat /\
  (num_anomalies (report_anomalies example_errors (1 / 5))
   <= total_samples (report_anomalies example_errors (1 / 5)))%nat.
Proof.
  apply (num_anomalies_antitone_in_threshold example_errors (1 / 5) (1 / 2)).
  lra.
Defined.

(** ** Fewer than five samples *)

(** On an array of at most five errors the slice [[-5:]] takes everything:
    the report lists every sample once, largest error first. *)
Theorem top_anomalies_of_short_array (errors : list R) :
  (List.length errors <= 5)%nat ->
  let idx := top_anomalies errors in
  List.length idx = List.length errors /\
  Permutation idx (seq 0 (List.length errors)) /\
  StronglySorted (fun i j => (nth j errors 0 <= nth i errors 0)%R) idx.
Proof.
  intros Hlen idx.
  pose proof (np_argsort_perm errors) as Hp.
  assert (List.length (np_argsort errors) = List.length errors) as Hl.
  { rewrite (Permutation_length Hp). apply length_seq. }
  assert (idx = rev (np_argsort errors)) as Hidx.
  { unfold idx, top_anomalies, top_k, last_k.
    replace (List.length (np_argsort errors) - 5)%nat with 0%nat by lia.
    reflexivity. }
  rewrite Hidx. split; [|split].
  - now rewrite length_rev.
  - rewrite <- Hp. apply Permutation_sym, Permutation_rev.
  - apply StronglySorted_rev, np_argsort_sorted.
Qed.

Lemma top_anomalies_of_short_array_witness :
  let idx := top_anomalies [3; 1; 2]%R in
  List.length idx = List.length [3; 1; 2]%R /\
  Permutation idx (seq 0 (List.length [3; 1; 2]%R)) /\
  StronglySorted
    (fun i j => (nth j [3; 1; 2] 0 <= nth i [3; 1; 2] 0)%R) idx.
Proof.
  apply (top_anomalies_of_short_array [3; 1; 2]%R). simpl. lia.
Defined.

(** ** Where the threshold lies *)

Lemma np_min_le (a : list R) (x : R) : In x a -> (np_min a <= x)%R.
Proof.
  unfold np_min. generalize (hd 0%R a). intros d.
  induction a as [|y a IH]; simpl; [contradiction|].
  intros [<-|H].
  - apply Rmin_l.
  - eapply Rle_trans; [apply Rmin_r | now apply IH].
Qed.

Lemma np_max_ge (a : list R) (x : R) : In x a -> (x <= np_max a)%R.
Proof.
  unfold np_max. generalize (hd 0%R a). intros d.
  induction a as [|y a IH]; simpl; [contradiction|].
  intros [<-|H].
  - apply Rmax_l.
  - eapply Rle_trans; [now apply IH | apply Rmax_r].
Qed.

Lemma fold_min_In (d : R) (a : list R) :
  fold_right Rmin d a = d \/ In (fold_right Rmin d a) a.
Proof.
  induction a as [|y a IH]; simpl; [now left|].
  destruct (Rmin_case y (fold_right Rmin d a)
              (fun r => r = y \/ r = fold_right Rmin d a)) as [H|H];
    [now left | now right | |].
  - right. left. now rewrite H.
  - rewrite H. destruct IH as [IH|IH]; [now left | right; now right].
Qed.

Lemma fold_max_In (d : R) (a : list R) :
  fold_right Rmax d a = d \/ In (fold_right Rmax d a) a.
Proof.
  induction a as [|y a IH]; simpl; [now left|].
  destruct (Rmax_case y (fold_right Rmax d a)
              (fun r => r = y \/ r = fold_right Rmax d a)) as [H|H];
    [now left | now right | |].
  - right. left. now rewrite H.
  - rewrite H. destruct IH as [IH|IH]; [now left | right; now right].
Qed.

Lemma np_min_In (a : list R) : a <> [] -> In (np_min a) a.
Proof.
  intros Hne. unfold np_min. destruct a as [|x a]; [congruence|].
  destruct (fold_min_In (hd 0%R (x :: a)) (x :: a)) as [H|H]; [|exact H].
  rewrite H. now left.
Qed.

Lemma np_max_In (a : list R) : a <> [] -> In (np_max a) a.
Proof.
  intros Hne. unfold np_max. destruct a as [|x a]; [congruence|].
  destruct (fold_max_In (hd 0%R (x :: a)) (x :: a)) as [H|H]; [|exact H].
  rewrite H. now left.
Qed.

Lemma np_sort_In (a : list R) (x : R) : In x (np_sort a) <-> In x a.
Proof.
  split; apply Permutation_in.
  - apply sort_perm.
  - apply Permutation_sym, sort_perm.
Qed.

Lemma percentile_value (a : list R) (q : R) :
  a <> [] -> (0 <= q <= 100)%R ->
  np_percentile a q
  = Ok (linear_quantile (np_sort a)
          (INR (List.length (np_sort a) - 1) * (q / 100))).
Proof.
  intros Hne [H0 H1]. unfold np_percentile.
  destruct (Rle_dec 0 q) as [_|Hn]; [|exfalso; lra].
  destruct (Rle_dec q 100) as [_|Hn]; [|exfalso; lra].
  destruct a; [congruence | reflexivity].
Qed.

Lemma virtual_index_range (n : nat) (q : R) :
  (0 <= q <= 100)%R -> (0 <= INR n * (q / 100) <= INR n)%R.
Proof.
  intros [H0 H1]. pose proof (pos_INR n) as Hn. split.
  - apply Rmult_le_pos; lra.
  - rewrite <- (Rmult_1_r (INR n)) at 2. apply Rmult_le_compat_l; lra.
Qed.

Lemma quantile_between (errors : list R) (P : R) :
  errors <> [] -> (0 <= P <= 100)%R ->
  (np_min errors
   <= linear_quantile (np_sort errors)
        (INR (List.length (np_sort errors) - 1) * (P / 100))
   <= np_max errors)%R.
Proof.
  intros Hne HP.
  set (arr := np_sort errors).
  assert (1 <= List.length arr)%nat as Hlen.
  { unfold arr. rewrite np_sort_length. destruct errors; [congruence|].
    simpl. lia. }
  destruct (linear_quantile_bounds arr
              (INR (List.length arr - 1) * (P / 100))
              (np_sort_sorted errors)
              (virtual_index_range _ P HP) Hlen) as [Hlo [Ha Hb]].
  unfold arr in *. clear arr.
  split.
  - eapply Rle_trans; [|exact Ha].
    apply np_min_le, np_sort_In. apply nth_In. lia.
  - eapply Rle_trans; [exact Hb|].
    apply np_max_ge, np_sort_In. apply nth_In. lia.
Qed.

(** The threshold taken at any percentile of a non-empty array lies between
    the smallest and the largest error that the Evaluator prints. *)
Theorem threshold_between_min_and_max (errors : list R) (P : R) :
  errors <> [] -> (0 <= P <= 100)%R ->
  exists t,
    np_percentile errors P = Ok t /\
    (np_min errors <= t <= np_max errors)%R.
Proof.
  intros Hne HP. rewrite (percentile_value errors P Hne HP).
  eexists. split; [reflexivity|]. now apply quantile_between.
Qed.

Lemma threshold_between_min_and_max_witness :
  exists t,
    np_percentile example_errors 95 = Ok t /\
    (np_min example_errors <= t <= np_max example_errors)%R.
Proof.
  apply (threshold_between_min_and_max example_errors 95).
  - discriminate.
  - lra.
Defined.


Lemma filter_none {A : Type} (p : A -> bool) (l : list A) :
  (forall a, In a l -> p a = false) -> filter p l = [].
Proof.
  induction l as [|a l IH]; intros H; simpl; [reflexivity|].
  rewrite (H a (or_introl eq_refl)). apply IH. intros b Hb. apply H. now right.
Qed.


Lemma R_gtb_false (x t : R) : (x <= t)%R -> R_gtb x t = false.
Proof.
  intros H. destruct (R_gtb x t) eqn:E; [|reflexivity].
  apply R_gtb_gt in E. lra.
Qed.





Lemma sorted_last_is_max (errors : list R) :
  errors <> [] ->
  nth (List.length errors - 1) (np_sort errors) 0%R = np_max errors.
Proof.
  intros Hne.
  pose proof (np_sort_length errors) as Hn.
  assert (1 <= List.length errors)%nat as Hlen.
  { destruct errors; [congruence|]. simpl. lia. }
  apply Rle_antisym.
  - apply np_max_ge, np_sort_In, nth_In. lia.
  - pose proof (np_max_In errors Hne) as Hin. apply np_sort_In in Hin.
    destruct (In_nth _ _ 0%R Hin) as [i [Hi <-]].
    apply StronglySorted_nth; [apply np_sort_sorted | lia].
Qed.

Lemma sorted_first_is_min (errors : list R) :
  errors <> [] -> nth 0 (np_sort errors) 0%R = np_min errors.
Proof.
  intros Hne.
  pose proof (np_sort_length errors) as Hn.
  assert (1 <= List.length errors)%nat as Hlen.
  { destruct errors; [congruence|]. simpl. lia. }
  apply Rle_antisym.
  - pose proof (np_min_In errors Hne) as Hin. apply np_sort_In in Hin.
    destruct (In_nth _ _ 0%R Hin) as [i [Hi <-]].
    apply StronglySorted_nth; [apply np_sort_sorted | lia].
  - apply np_min_le, np_sort_In, nth_In. lia.
Qed.

(** Percentile 100 is the largest error and percentile 0 the smallest; with
    the threshold at percentile 100 no sample is an anomaly. *)
Theorem threshold_at_the_extremes (errors : list R) :
  errors <> [] ->
  np_percentile errors 100 = Ok (np_max errors) /\
  np_percentile errors 0 = Ok (np_min errors) /\
  num_anomalies (report_anomalies errors (np_max errors)) = 0%nat.
Proof.
  intros Hne.
  pose proof (np_sort_length errors) as Hn.
  assert (1 <= List.length errors)%nat as Hlen.
  { destruct errors; [congruence|]. simpl. lia. }
  split; [|split].
  - rewrite percentile_value by (assumption || lra). f_equal.
    rewrite Hn. unfold linear_quantile. rewrite Hn.
    replace (INR (List.length errors - 1) * (100 / 100))%R
      with (INR (List.length errors - 1)) by field.
    rewrite Int_part_INR, Nat2Z.id.
    replace (Nat.min (List.length errors - 1 + 1) (List.length errors - 1))
      with (List.length errors - 1)%nat by lia.
    rewrite lerp_linear, sorted_last_is_max by assumption. ring.
  - rewrite percentile_value by (assumption || lra). f_equal.
    unfold linear_quantile.
    replace (INR (List.length (np_sort errors) - 1) * (0 / 100))%R
      with (INR 0) by (simpl; field).
    rewrite Int_part_INR. simpl Z.to_nat.
    rewrite lerp_linear, sorted_first_is_min by assumption. simpl. ring.
  - unfold report_anomalies. cbn [num_anomalies].
    rewrite count_true_greater, filter_none; [reflexivity|].
    intros e He. apply R_gtb_false. now apply np_max_ge.
Qed.

Lemma threshold_at_the_extremes_witness :
  np_percentile example_errors 100 = Ok (np_max example_errors) /\
  np_percentile example_errors 0 = Ok (np_min example_errors) /\
  num_anomalies (report_anomalies example_errors (np_max example_errors))
  = 0%nat.
Proof.
  apply (threshold_at_the_extremes example_errors). discriminate.
Defined.

(** ** The split is a partition *)

Lemma in_firstn {A : Type} (k : nat) (l : list A) (x : A) :
  In x (firstn k l) -> In x l.
Proof.
  intros H. rewrite <- (firstn_skipn k l). apply in_or_app. now left.
Qed.

Lemma in_skipn {A : Type} (k : nat) (l : list A) (x : A) :
  In x (skipn k l) -> In x l.
Proof.
  intros H. rewrite <- (firstn_skipn k l). apply in_or_app. now right.
Qed.

Lemma take_app {A : Type} (r1 r2 : list nat) (xs : list A) :
  take (r1 ++ r2) xs = take r1 xs ++ take r2 xs.
Proof. unfold take. apply flat_map_app. Qed.

Lemma take_length {A : Type} (rows : list nat) (xs : list A) :
  (forall i, In i rows -> (i < List.length xs)%nat) ->
  List.length (take rows xs) = List.length rows.
Proof.
  induction rows as [|i rows IH]; intros H; [reflexivity|].
  simpl. rewrite length_app, IH by (intros j Hj; apply H; now right).
  destruct (nth_error xs i) eqn:E; [reflexivity|].
  apply nth_error_None in E. specialize (H i (or_introl eq_refl)). lia.
Qed.

Lemma take_seq {A : Type} (pre xs : list A) :
  take (seq (List.length pre) (List.length xs)) (pre ++ xs) = xs.
Proof.
  revert pre. induction xs as [|a xs IH]; intros pre; [reflexivity|].
  simpl. rewrite nth_error_app2 by lia. rewrite Nat.sub_diag. simpl.
  f_equal. specialize (IH (pre ++ [a])).
  rewrite length_app, <- app_assoc in IH. simpl in IH.
  rewrite Nat.add_1_r in IH. exact IH.
Qed.

Lemma take_all {A : Type} (xs : list A) :
  take (seq 0 (List.length xs)) xs = xs.
Proof. exact (take_seq [] xs). Qed.

Lemma ceil_fifth (n : nat) : ((20 * n + 99) / 100 = (n + 4) / 5)%nat.
Proof.
  symmetry. apply Nat.div_unique with (r := (20 * ((n + 4) mod 5) + 19)%nat).
  - pose proof (Nat.mod_upper_bound (n + 4) 5). lia.
  - pose proof (Nat.div_mod (n + 4) 5). lia.
Qed.

(** When the generator returns a permutation of the row indices,
    [train_test_split] with [test_size = 0.2] on at least two rows
    completes; the test part has a fifth of the rows, rounded up, the
    training part has the others, and each row is in exactly one of the two
    parts. *)
Theorem train_test_split_is_a_partition
    (rng : Type) (RandomState : Z -> rng)
    (permutation : nat -> rng -> list nat * rng)
    (A : Type) (arrays : list A) (random_state : option Z) (g : rng) :
  (forall n g, Permutation (fst (permutation n g)) (seq 0 n)) ->
  (2 <= List.length arrays)%nat ->
  exists train test g',
    train_test_split rng RandomState permutation arrays 20 random_state g
    = (Ok (train, test), g') /\
    Permutation (test ++ train) arrays /\
    List.length test = ((List.length arrays + 4) / 5)%nat /\
    List.length train
    = (List.length arrays - (List.length arrays + 4) / 5)%nat /\
    (1 <= List.length test)%nat /\ (1 <= List.length train)%nat.
Proof.
  intros Hperm Hn. unfold train_test_split.
  rewrite ceil_fifth.
  set (n := List.length arrays) in *.
  set (n_test := ((n + 4) / 5)%nat).
  assert (1 <= n_test /\ n_test < n)%nat as [Hlo Hhi].
  { unfold n_test. pose proof (Nat.div_mod (n + 4) 5).
    pose proof (Nat.mod_upper_bound (n + 4) 5). lia. }
  destruct (n - n_test =? 0)%nat eqn:E; [apply Nat.eqb_eq in E; lia|].
  set (drawn := match random_state with
                | Some seed => (fst (permutation n (RandomState seed)), g)
                | None => permutation n g
                end).
  assert (Permutation (fst drawn) (seq 0 n)) as Hp.
  { unfold drawn. destruct random_state as [seed|]; [apply Hperm|].
    apply Hperm. }
  destruct drawn as [perm g']. simpl in Hp.
  assert (List.length perm = n) as Hlen.
  { rewrite (Permutation_length Hp). apply length_seq. }
  assert (forall i, In i perm -> (i < List.length arrays)%nat) as Hvalid.
  { intros i Hi. apply (Permutation_in _ Hp) in Hi. apply in_seq in Hi.
    fold n. lia. }
  assert (firstn (n - n_test) (skipn n_test perm) = skipn n_test perm) as Hrest.
  { apply firstn_all2. rewrite length_skipn. lia. }
  rewrite Hrest.
  exists (take (skipn n_test perm) arrays), (take (firstn n_test perm) arrays), g'.
  split; [reflexivity|].
  assert (List.length (take (firstn n_test perm) arrays) = n_test) as Ht.
  { rewrite take_length.
    - rewrite length_firstn. lia.
    - intros i Hi. apply Hvalid. now apply in_firstn in Hi. }
  assert (List.length (take (skipn n_test perm) arrays) = (n - n_test)%nat) as Hr.
  { rewrite take_length.
    - rewrite length_skipn. lia.
    - intros i Hi. apply Hvalid. now apply in_skipn in Hi. }
  split; [|split; [exact Ht | split; [exact Hr | lia]]].
  rewrite <- take_app, firstn_skipn.
  rewrite <- (take_all arrays) at 2. fold n.
  unfold take. now apply Permutation_flat_map.
Qed.

Lemma train_test_split_is_a_partition_witness :
  exists train test g',
    train_test_split nat counter_seed counter_permutation
      [1; 2; 3; 4; 5; 6; 7]%nat 20 (Some 42%Z) 0
    = (Ok (train, test), g') /\
    Permutation (test ++ train) [1; 2; 3; 4; 5; 6; 7]%nat /\
    List.length test = ((List.length [1; 2; 3; 4; 5; 6; 7]%nat + 4) / 5)%nat /\
    List.length train
    = (List.length [1; 2; 3; 4; 5; 6; 7]%nat
       - (List.length [1; 2; 3; 4; 5; 6; 7]%nat + 4) / 5)%nat /\
    (1 <= List.length test)%nat /\ (1 <= List.length train)%nat.
Proof.
  apply (train_test_split_is_a_partition nat counter_seed counter_permutation
           nat [1; 2; 3; 4; 5; 6; 7]%nat (Some 42%Z) 0).
  - intros n g. unfold counter_permutation. simpl fst.
    rewrite Permutation_app_comm. now rewrite firstn_skipn.
  - simpl. lia.
Defined.

(** On fewer than two rows the training part would be empty and
    [train_test_split] raises, whatever the seed, without drawing from the
    generator. *)
Theorem train_test_split_needs_two_rows
    (rng : Type) (RandomState : Z -> rng)
    (permutation : nat -> rng -> list nat * rng)
    (A : Type) (arrays : list A) (random_state : option Z) (g : rng) :
  (List.length arrays < 2)%nat ->
  train_test_split rng RandomState permutation arrays 20 random_state g
  = (Raise (ValueError "the resulting train set will be empty"), g).
Proof.
  intros Hn. unfold train_test_split.
  destruct arrays as [|a [|b arrays]]; [reflexivity | reflexivity|].
  simpl in Hn. lia.
Qed.

Lemma train_test_split_needs_two_rows_witness :
  train_test_split nat counter_seed counter_permutation [7]%nat 20 None 3
  = (Raise (ValueError "the resulting train set will be empty"), 3).
Proof.
  apply (train_test_split_needs_two_rows nat counter_seed counter_permutation
           nat [7]%nat None 3).
  simpl. lia.
Defined.

(** ** The Loader on a table that has every column *)

Lemma issubset_app (l1 l2 cols : list string) :
  issubset (l1 ++ l2) cols = issubset l1 cols && issubset l2 cols.
Proof. unfold issubset. apply forallb_app. Qed.

(** When the seven identifier columns and [address_state] are columns of
    the table, the column steps of the Loader complete: the seven
    identifiers are gone, every other column is kept in its place, and
    [address_state] holds the codes of a label encoder fitted on it. *)
Theorem loader_preprocessing_on_full_schema (data : RawFrame) :
  issubset expected_columns (columns data) = true ->
  exists df y,
    loader_preprocessing data = Ok df /\
    columns df = filter (fun c => negb (mem c id_columns)) (columns data) /\
    (forall c, In c id_columns -> ~ In c (columns df)) /\
    getitem "address_state" (drop_missing_and_infinite data) = Ok y /\
    getitem "address_state" df = Ok (codes (LabelEncoder_fit_transform y)).
Proof.
  intros Hsub. unfold expected_columns in Hsub.
  rewrite issubset_app in Hsub. apply andb_true_iff in Hsub.
  destruct Hsub as [Hids Hstate].
  unfold issubset in Hstate. simpl in Hstate. rewrite andb_true_r in Hstate.
  unfold loader_preprocessing.
  pose proof (columns_drop_missing_and_infinite data) as Hcols.
  set (D := drop_missing_and_infinite data) in *.
  rewrite drop_present by now rewrite Hcols.
  cbn [rbind].
  set (df1 := filter (fun nc => negb (mem (fst nc) id_columns)) D).
  assert (getitem "address_state" df1 = getitem "address_state" D) as Hget.
  { unfold df1.
    now rewrite (getitem_filter "address_state"
                   (fun n => negb (mem n id_columns))). }
  assert (In "address_state" (columns D)) as Hin.
  { rewrite Hcols. now apply mem_In. }
  destruct (getitem_present _ _ Hin) as [y Hy].
  cbn [encode_columns]. rewrite Hget, Hy. cbn [rbind encode_columns].
  eexists. exists y. split; [reflexivity|].
  assert (columns (setitem "address_state"
                     (codes (LabelEncoder_fit_transform y)) df1)
          = filter (fun c => negb (mem c id_columns)) (columns data)) as Hc.
  { rewrite columns_setitem. unfold df1.
    rewrite (columns_filter (fun n => negb (mem n id_columns))).
    now rewrite Hcols. }
  split; [exact Hc|]. split; [|split; [reflexivity|]].
  - intros c Hid Hc'. rewrite Hc in Hc'. apply filter_In in Hc'.
    destruct Hc' as [_ Hneg]. apply mem_In in Hid. rewrite Hid in Hneg.
    discriminate.
  - apply getitem_setitem with (y := y). now rewrite Hget.
Qed.

Lemma loader_preprocessing_on_full_schema_witness :
  exists df y,
    loader_preprocessing training_table = Ok df /\
    columns df
    = filter (fun c => negb (mem c id_columns)) (columns training_table) /\
    (forall c, In c id_columns -> ~ In c (columns df)) /\
    getitem "address_state" (drop_missing_and_infinite training_table) = Ok y /\
    getitem "address_state" df = Ok (codes (LabelEncoder_fit_transform y)).
Proof.
  apply (loader_preprocessing_on_full_schema training_table). reflexivity.
Defined.

(** ** Codes of the label encoder *)

Section UniqueFacts.
Context {A : Type} (cmp : A -> A -> comparison).
Hypothesis cmp_eq : forall x y, cmp x y = Eq <-> x = y.

Lemma insert_unique_In (x z : A) (l : list A) :
  In z (insert_unique cmp x l) <-> z = x \/ In z l.
Proof.
  induction l as [|y l IH]; simpl.
  - intuition.
  - destruct (cmp x y) eqn:E; simpl.
    + apply cmp_eq in E. subst y. intuition.
    + intuition.
    + rewrite IH. intuition.
Qed.

Lemma unique_In (z : A) (l : list A) : In z (unique cmp l) <-> In z l.
Proof.
  induction l as [|x l IH]; simpl; [reflexivity|].
  rewrite insert_unique_In, IH. intuition.
Qed.

Lemma index_of_decode (x : A) (l : list A) :
  In x l ->
  (index_of cmp x l < List.length l)%nat /\
  nth_error l (index_of cmp x l) = Some x.
Proof.
  induction l as [|y l IH]; simpl; [contradiction|].
  intros Hin. destruct (cmp x y) eqn:E.
  - apply cmp_eq in E. subst y. split; [lia | reflexivity].
  - destruct Hin as [->|Hin].
    + assert (cmp x x = Eq) as Hxx by now apply cmp_eq. congruence.
    + destruct (IH Hin) as [H1 H2]. split; [lia | exact H2].
  - destruct Hin as [->|Hin].
    + assert (cmp x x = Eq) as Hxx by now apply cmp_eq. congruence.
    + destruct (IH Hin) as [H1 H2]. split; [lia | exact H2].
Qed.
End UniqueFacts.

Lemma string_compare_eq (x y : string) : String.compare x y = Eq <-> x = y.
Proof.
  split; [apply String.compare_eq_iff|].
  intros ->. pose proof (String.compare_antisym y y) as H.
  destruct (String.compare y y); simpl in H; congruence.
Qed.

(** The code that the label encoder gives to a row is a position among the
    distinct states of the column, and that position holds the state of the
    row: the codes can be decoded, and two rows get the same code exactly
    when they hold the same state. *)
Theorem label_codes_decode (xs : list string) (i j : nat) (s s' : string) :
  nth_error xs i = Some s ->
  nth_error xs j = Some s' ->
  let classes := unique String.compare xs in
  let encoded := LabelEncoder_fit_transform (StrCol xs) in
  LabelEncoder_classes (StrCol xs) = StrCol classes /\
  List.length encoded = List.length xs /\
  exists k k',
    nth_error encoded i = Some k /\
    nth_error encoded j = Some k' /\
    (k < List.length classes)%nat /\
    nth_error classes k = Some s /\
    nth_error classes k' = Some s' /\
    (k = k' <-> s = s').
Proof.
  intros Hi Hj classes encoded.
  split; [reflexivity|]. split; [apply length_map|].
  assert (forall n t, nth_error xs n = Some t ->
            nth_error encoded n = Some (index_of String.compare t classes) /\
            (index_of String.compare t classes < List.length classes)%nat /\
            nth_error classes (index_of String.compare t classes) = Some t)
    as Hrow.
  { intros n t Hn. split.
    - unfold encoded. simpl. now rewrite nth_error_map, Hn.
    - apply (index_of_decode _ string_compare_eq).
      apply (unique_In _ string_compare_eq). eapply nth_error_In; eauto. }
  destruct (Hrow i s Hi) as [Ei [Hlt Hs]].
  destruct (Hrow j s' Hj) as [Ej [_ Hs']].
  exists (index_of String.compare s classes),
         (index_of String.compare s' classes).
  repeat split; try assumption.
  - intros Hk. rewrite Hk in Hs. congruence.
  - intros ->. reflexivity.
Qed.

Lemma label_codes_decode_witness :
  let xs := ["NY"; "TX"; "NY"] in
  let classes := unique String.compare xs in
  let encoded := LabelEncoder_fit_transform (StrCol xs) in
  LabelEncoder_classes (StrCol xs) = StrCol classes /\
  List.length encoded = List.length xs /\
  exists k k',
    nth_error encoded 0 = Some k /\
    nth_error encoded 1 = Some k' /\
    (k < List.length classes)%nat /\
    nth_error classes k = Some "NY" /\
    nth_error classes k' = Some "TX" /\
    (k = k' <-> "NY" = "TX").
Proof.
  apply (label_codes_decode ["NY"; "TX"; "NY"] 0 1 "NY" "TX"); reflexivity.
Defined.

(** ** The whole stack of layers *)

Lemma hidden_layers_closed (dims : list Z) (l2_reg dropout_rate : R) :
  Forall (fun w => (0 < w)%Z) dims ->
  (dropout_rate <= 1)%R ->
  forall encoded,
    hidden_layers dims l2_reg dropout_rate encoded
    = Ok (encoded
          ++ flat_map
               (fun w => DenseLayer w relu (Some l2_reg)
                         :: (if Rlt_dec 0 dropout_rate
                             then [DropoutLayer dropout_rate]
                             else []))
               dims).
Proof.
  intros Hpos Hrate. induction Hpos as [|w ws Hw Hws IH]; intros encoded.
  - simpl. now rewrite app_nil_r.
  - simpl. rewrite Dense_positive by assumption. cbn [rbind].
    destruct (Rlt_dec 0 dropout_rate) as [Hlt|Hge].
    + unfold Dropout.
      destruct (Rle_dec 0 dropout_rate) as [_|Hn]; [|exfalso; lra].
      destruct (Rle_dec dropout_rate 1) as [_|Hn]; [|contradiction].
      cbn [rbind]. rewrite IH. f_equal. rewrite <- !app_assoc. reflexivity.
    + cbn [rbind]. rewrite IH. f_equal. rewrite <- !app_assoc. reflexivity.
Qed.

Lemma build_autoencoder_closed (d : Z) (ws : list Z) (l2_reg dropout_rate : R) :
  (0 < d)%Z ->
  Forall (fun w => (0 < w)%Z) ws ->
  (dropout_rate <= 1)%R ->
  build_autoencoder d ws l2_reg dropout_rate
  = Ok {| input_shape := d;
          layers :=
            flat_map
              (fun w => DenseLayer w relu (Some l2_reg)
                        :: (if Rlt_dec 0 dropout_rate
                            then [DropoutLayer dropout_rate]
                            else []))
              (ws ++ rev (removelast ws))
            ++ [DenseLayer d sigmoid None];
          optimizer := "adam";
          loss := "mse" |}.
Proof.
  intros Hd Hws Hrate. unfold build_autoencoder.
  rewrite (hidden_layers_closed ws l2_reg dropout_rate Hws Hrate).
  cbn [rbind].
  rewrite hidden_layers_closed;
    [|apply Forall_rev; now apply Forall_removelast | assumption].
  cbn [rbind]. rewrite Dense_positive by assumption. cbn [rbind].
  now rewrite app_nil_l, <- flat_map_app.
Qed.

(** The network that [build_autoencoder] returns, layer by layer: for each
    width of the encoder and then of the mirrored decoder, a dense layer
    with the rectifier activation and the L2 regulariser, followed by a
    dropout layer exactly when the dropout rate is positive; last, the dense
    sigmoid layer, which has no regulariser and no dropout after it.  The
    network is compiled with the Adam optimiser and the mean squared error. *)
Theorem build_autoencoder_architecture
    (d : Z) (ws : list Z) (l2_reg dropout_rate : R) :
  (0 < d)%Z ->
  Forall (fun w => (0 < w)%Z) ws ->
  (dropout_rate <= 1)%R ->
  exists net,
    build_autoencoder d ws l2_reg dropout_rate = Ok net /\
    layers net
    = flat_map
        (fun w => DenseLayer w relu (Some l2_reg)
                  :: (if Rlt_dec 0 dropout_rate
                      then [DropoutLayer dropout_rate]
                      else []))
        (ws ++ rev (removelast ws))
      ++ [DenseLayer d sigmoid None] /\
    optimizer net = "adam" /\ loss net = "mse" /\
    List.length (layers net)
    = ((if Rlt_dec 0 dropout_rate then 2 else 1)
       * (List.length ws + (List.length ws - 1)) + 1)%nat.
Proof.
  intros Hd Hws Hrate.
  rewrite (build_autoencoder_closed d ws l2_reg dropout_rate Hd Hws Hrate).
  eexists. split; [reflexivity|]. cbn [layers optimizer loss].
  split; [reflexivity|]. split; [reflexivity|]. split; [reflexivity|].
  rewrite length_app. simpl List.length at 2.
  assert (forall l : list Z,
            List.length
              (flat_map
                 (fun w => DenseLayer w relu (Some l2_reg)
                           :: (if Rlt_dec 0 dropout_rate
                               then [DropoutLayer dropout_rate]
                               else [])) l)
            = ((if Rlt_dec 0 dropout_rate then 2 else 1) * List.length l)%nat)
    as Hcount.
  { induction l as [|w l IH]; simpl; [lia|].
    rewrite length_app, IH.
    destruct (Rlt_dec 0 dropout_rate); simpl; lia. }
  rewrite Hcount, length_app, length_rev.
  assert (List.length (removelast ws) = (List.length ws - 1)%nat) as Hrl.
  { clear. induction ws as [|w ws IH]; [reflexivity|].
    destruct ws as [|w' ws]; [reflexivity|].
    change (removelast (w :: w' :: ws)) with (w :: removelast (w' :: ws)).
    simpl List.length in *. rewrite IH. lia. }
  rewrite Hrl. reflexivity.
Qed.

Lemma build_autoencoder_architecture_witness :
  exists net,
    build_autoencoder 9 [16; 8; 4]%Z (1 / 1000) (1 / 5) = Ok net /\
    layers net
    = flat_map
        (fun w => DenseLayer w relu (Some (1 / 1000)%R)
                  :: (if Rlt_dec 0 (1 / 5)
                      then [DropoutLayer (1 / 5)]
                      else []))
        ([16; 8; 4]%Z ++ rev (removelast [16; 8; 4]%Z))
      ++ [DenseLayer 9 sigmoid None] /\
    optimizer net = "adam" /\ loss net = "mse" /\
    List.length (layers net)
    = ((if Rlt_dec 0 (1 / 5) then 2 else 1)
       * (List.length [16; 8; 4]%Z + (List.length [16; 8; 4]%Z - 1)) + 1)%nat.
Proof.
  apply (build_autoencoder_architecture 9 [16; 8; 4]%Z (1 / 1000) (1 / 5)).
  - reflexivity.
  - repeat constructor.
  - lra.
Defined.

(** ** Inputs on which scoring stops *)


Lemma to_numpy_features (df : DataFrame) (X : ndarray) :
  to_numpy df = Ok X -> n_features X = List.length (columns df).
Proof.
  revert X. induction df as [|[n c] df IH]; simpl; intros X H.
  - injection H as <-. reflexivity.
  - destruct c as [ys|ys]; [|discriminate].
    destruct (to_numpy df) as [X'|e]; simpl in H; [|discriminate].
    injection H as <-. unfold n_features in *. simpl. f_equal.
    now apply IH.
Qed.



(** A dataset whose number of columns after the column steps is not the
    number of features the scaler was fitted on stops the Scorer at the
    transform, with the scaler unchanged. *)
Theorem scorer_raises_on_feature_mismatch
    (data : RawFrame) (model : list (list R) -> list (list R)) (threshold : R)
    (f : fitted) (df : DataFrame) (X : ndarray) :
  scorer_preprocessing data = Ok df ->
  to_numpy df = Ok X ->
  n_samples X <> 0%nat ->
  List.length (columns df) <> List.length (mean_ f) ->
  detect_and_evaluate_fraud data model threshold (Some f)
  = (Raise (ValueError "X has a different number of features"), Some f).
Proof.
  intros Hpre HX Hn Hcols. unfold detect_and_evaluate_fraud, bind, lift.
  rewrite Hpre, HX. unfold StandardScaler_transform, bind, get.
  apply Nat.eqb_neq in Hn. rewrite Hn.
  rewrite <- (to_numpy_features df X HX) in Hcols.
  apply Nat.eqb_neq in Hcols. now rewrite Hcols.
Qed.

Lemma scorer_raises_on_feature_mismatch_witness :
  detect_and_evaluate_fraud dataset_without_california (fun rows => rows)
    (1 / 2) (Some {| mean_ := [0%R]; var_ := [1%R]; scale_ := [1%R] |})
  = (Raise (ValueError "X has a different number of features"),
     Some {| mean_ := [0%R]; var_ := [1%R]; scale_ := [1%R] |}).
Proof.
  eapply (scorer_raises_on_feature_mismatch dataset_without_california
            (fun rows => rows) (1 / 2)
            {| mean_ := [0%R]; var_ := [1%R]; scale_ := [1%R] |}).
  - reflexivity.
  - reflexivity.
  - simpl. discriminate.
  - simpl. discriminate.
Defined.

(** A scaler that was never fitted stops the Scorer as well. *)
Lemma scorer_raises_on_unfitted_scaler
    (data : RawFrame) (model : list (list R) -> list (list R)) (threshold : R)
    (df : DataFrame) (X : ndarray) :
  scorer_preprocessing data = Ok df ->
  to_numpy df = Ok X ->
  detect_and_evaluate_fraud data model threshold None
  = (Raise NotFittedError, None).
Proof.
  intros Hpre HX. unfold detect_and_evaluate_fraud, bind, lift.
  now rewrite Hpre, HX.
Qed.

(** ** The statistics the Evaluator prints *)







(** ** When the Loader completes *)

Lemma scale_positive (c : list R) : (0 < handle_zeros_in_scale (std c))%R.
Proof.
  unfold handle_zeros_in_scale.
  destruct (Req_dec_T (std c) 0) as [_|Hne]; [lra|].
  pose proof (sqrt_pos (var c)) as Hp. unfold std in *. lra.
Qed.

Lemma n_samples_map (f : list R -> list R) (X : ndarray) :
  (forall c, List.length (f c) = List.length c) ->
  n_samples (map f X) = n_samples X.
Proof. intros H. destruct X as [|c X]; [reflexivity | apply H]. Qed.

Lemma rows_of_length (X : ndarray) : List.length (rows_of X) = n_samples X.
Proof. unfold rows_of. now rewrite length_map, length_seq. Qed.

(** When the column steps succeed, every column left is numeric and at
    least two rows are complete, the Loader completes, whatever the
    generator: it returns a fitted scaler with one mean and one scale per
    column, every scale is positive (so that the transform never divides by
    zero), and the global generator is untouched. *)
Theorem loader_completes
    (rng : Type) (RandomState : Z -> rng)
    (permutation : nat -> rng -> list nat * rng)
    (data : RawFrame) (g : rng) (df : DataFrame) (X : ndarray) :
  loader_preprocessing data = Ok df ->
  to_numpy df = Ok X ->
  (2 <= n_samples X)%nat ->
  exists train_data test_data f,
    load_and_preprocess_data rng RandomState permutation data g
    = (Ok (train_data, test_data, Some f), g) /\
    mean_ f = map mean X /\
    List.length (mean_ f) = List.length (columns df) /\
    List.length (scale_ f) = List.length (columns df) /\
    Forall (fun s => (0 < s)%R) (scale_ f).
Proof.
  intros Hpre HX Hn.
  unfold load_and_preprocess_data, bind, lift, with_object.
  rewrite Hpre, HX.
  rewrite fit_transform_value by lia.
  unfold train_test_split. rewrite rows_of_length.
  rewrite n_samples_map by (intros c; apply length_map).
  rewrite ceil_fifth.
  assert ((n_samples X + 4) / 5 < n_samples X)%nat as Hlt.
  { pose proof (Nat.div_mod (n_samples X + 4) 5).
    pose proof (Nat.mod_upper_bound (n_samples X + 4) 5). lia. }
  destruct (n_samples X - (n_samples X + 4) / 5 =? 0)%nat eqn:E;
    [apply Nat.eqb_eq in E; lia|].
  unfold ret. eexists. eexists. eexists. split; [reflexivity|].
  cbn [mean_ scale_]. pose proof (to_numpy_features df X HX) as Hf.
  unfold n_features in Hf. rewrite !length_map.
  split; [reflexivity|]. split; [exact Hf|]. split; [exact Hf|].
  rewrite Forall_forall. intros s Hs. apply in_map_iff in Hs.
  destruct Hs as [c [<- _]]. apply scale_positive.
Qed.

Lemma loader_completes_witness :
  exists train_data test_data f,
    load_and_preprocess_data nat counter_seed counter_permutation
      training_table 5
    = (Ok (train_data, test_data, Some f), 5%nat) /\
    mean_ f = map mean [[INR 0; INR 1; INR 2]; [1; 2; 3]%R] /\
    List.length (mean_ f) = 2%nat /\
    List.length (scale_ f) = 2%nat /\
    Forall (fun s => (0 < s)%R) (scale_ f).
Proof.
  apply (loader_completes nat counter_seed counter_permutation
           training_table 5
           [("address_state", NumCol [INR 0; INR 1; INR 2]);
            ("amount", NumCol [1; 2; 3]%R)]
           [[INR 0; INR 1; INR 2]; [1; 2; 3]%R]).
  - reflexivity.
  - reflexivity.
  - simpl. lia.
Defined.

(** ** One run, end to end *)




Lemma scorer_run
    (data : RawFrame) (model : list (list R) -> list (list R)) (threshold : R)
    (f : fitted) (df : DataFrame) (X : ndarray) :
  scorer_preprocessing data = Ok df ->
  to_numpy df = Ok X ->
  n_samples X <> 0%nat ->
  List.length (columns df) = List.length (mean_ f) ->
  let rows := rows_of (scale_columns X (mean_ f) (scale_ f)) in
  let errors := reconstruction_errors_of (model rows) rows in
  detect_and_evaluate_fraud data model threshold (Some f)
  = (Ok {| printed := report_anomalies errors threshold;
           saved_errors := errors |}, Some f).
Proof.
  intros Hpre HX Hn Hcols. unfold detect_and_evaluate_fraud, bind, lift.
  rewrite Hpre, HX. unfold StandardScaler_transform, bind, get.
  apply Nat.eqb_neq in Hn. rewrite Hn.
  rewrite <- (to_numpy_features df X HX) in Hcols.
  apply Nat.eqb_eq in Hcols. rewrite Hcols. reflexivity.
Qed.

(** When the column steps succeed, every column left is numeric, at least
    one row is complete and the number of columns is the number of features
    of the fitted scaler, the Scorer completes: it saves one error per row
    it could pair with a reconstruction, none of them negative, prints their
    number as the number of samples, and leaves the scaler as it was. *)
Theorem scorer_completes
    (data : RawFrame) (model : list (list R) -> list (list R)) (threshold : R)
    (f : fitted) (df : DataFrame) (X : ndarray) :
  scorer_preprocessing data = Ok df ->
  to_numpy df = Ok X ->
  n_samples X <> 0%nat ->
  List.length (columns df) = List.length (mean_ f) ->
  exists det,
    detect_and_evaluate_fraud data model threshold (Some f)
    = (Ok det, Some f) /\
    Forall (fun e => (0 <= e)%R) (saved_errors det) /\
    total_samples (printed det) = List.length (saved_errors det) /\
    (List.length (saved_errors det) <= n_samples X)%nat /\
    (num_anomalies (printed det) <= total_samples (printed det))%nat.
Proof.
  intros Hpre HX Hn Hcols.
  rewrite (scorer_run data model threshold f df X Hpre HX Hn Hcols).
  eexists. split; [reflexivity|]. cbn [saved_errors printed].
  split; [|split; [reflexivity | split]].
  - unfold reconstruction_errors_of. rewrite Forall_forall. intros e He.
    apply in_map_iff in He. destruct He as [p [<- _]].
    apply reconstruction_error_nonneg.
  - unfold reconstruction_errors_of.
    rewrite length_map, length_combine, rows_of_length.
    assert (n_samples (scale_columns X (mean_ f) (scale_ f)) <= n_samples X)%nat
      as Hle.
    { destruct X as [|c X]; [simpl; lia|].
      destruct (mean_ f) as [|m ms]; [simpl; lia|].
      destruct (scale_ f) as [|s ss]; [simpl; lia|].
      simpl. now rewrite length_map. }
    lia.
  - unfold report_anomalies. cbn [num_anomalies total_samples].
    rewrite count_true_greater. apply filter_length_le.
Qed.

Lemma scorer_completes_witness :
  exists det,
    detect_and_evaluate_fraud dataset_without_california (fun rows => rows)
      (1 / 2) (Some {| mean_ := [0; 2]%R; var_ := [1; 1]%R;
                       scale_ := [1; 1]%R |})
    = (Ok det, Some {| mean_ := [0; 2]%R; var_ := [1; 1]%R;
                       scale_ := [1; 1]%R |}) /\
    Forall (fun e => (0 <= e)%R) (saved_errors det) /\
    total_samples (printed det) = List.length (saved_errors det) /\
    (List.length (saved_errors det) <= 3)%nat /\
    (num_anomalies (printed det) <= total_samples (printed det))%nat.
Proof.
  apply (scorer_completes dataset_without_california (fun rows => rows)
           (1 / 2)
           {| mean_ := [0; 2]%R; var_ := [1; 1]%R; scale_ := [1; 1]%R |}
           [("address_state", NumCol [INR 0; INR 1; INR 0]);
            ("amount", NumCol [1; 2; 3]%R)]
           [[INR 0; INR 1; INR 0]; [1; 2; 3]%R]).
  - reflexivity.
  - reflexivity.
  - simpl. discriminate.
  - reflexivity.
Defined.




(** ** Cleaning keeps the complete rows *)

Lemma nth_error_take {A : Type} (r : list nat) (xs : list A) (j : nat) :
  (forall i, In i r -> (i < List.length xs)%nat) ->
  nth_error (take r xs) j
  = match nth_error r j with
    | Some i => nth_error xs i
    | None => None
    end.
Proof.
  revert j. induction r as [|i r IH]; intros j Hv.
  - now destruct j.
  - assert (i < List.length xs)%nat as Hi by (apply Hv; now left).
    assert (forall k, In k r -> (k < List.length xs)%nat) as Hr
      by (intros k Hk; apply Hv; now right).
    unfold take in *. simpl flat_map.
    destruct (nth_error xs i) as [x|] eqn:E;
      [|apply nth_error_None in E; lia].
    destruct j as [|j]; simpl; [now rewrite E | now apply IH].
Qed.

Lemma take_take {A : Type} (r1 r2 : list nat) (xs : list A) :
  (forall i, In i r1 -> (i < List.length xs)%nat) ->
  take r2 (take r1 xs) = take (take r2 r1) xs.
Proof.
  intros Hv. induction r2 as [|j r2 IH]; [reflexivity|].
  change (take (j :: r2) (take r1 xs))
    with ((match nth_error (take r1 xs) j with Some x => [x] | None => [] end)
          ++ take r2 (take r1 xs)).
  change (take (j :: r2) r1)
    with ((match nth_error r1 j with Some x => [x] | None => [] end)
          ++ take r2 r1).
  rewrite take_app, IH, (nth_error_take r1 xs j Hv). f_equal.
  destruct (nth_error r1 j) as [i|]; [|reflexivity].
  unfold take. simpl. now rewrite app_nil_r.
Qed.

Lemma take_map {A B : Type} (f : A -> B) (r : list nat) (xs : list A) :
  take r (map f xs) = map f (take r xs).
Proof.
  induction r as [|i r IH]; [reflexivity|].
  unfold take in *. simpl. rewrite map_app, IH, nth_error_map.
  now destruct (nth_error xs i).
Qed.

Lemma take_filter_seq {A : Type} (q : nat -> bool) (p : A -> bool)
    (pre l : list A) :
  (forall j x, nth_error (pre ++ l) j = Some x ->
               (List.length pre <= j)%nat -> q j = p x) ->
  take (filter q (seq (List.length pre) (List.length l))) (pre ++ l)
  = filter p l.
Proof.
  revert pre. induction l as [|a l IH]; intros pre H; [reflexivity|].
  simpl seq. simpl filter.
  assert (nth_error (pre ++ a :: l) (List.length pre) = Some a) as Ha.
  { rewrite nth_error_app2 by lia. now rewrite Nat.sub_diag. }
  rewrite (H _ _ Ha (Nat.le_refl _)).
  assert (take (filter q (seq (S (List.length pre)) (List.length l)))
               (pre ++ a :: l) = filter p l) as Hrest.
  { specialize (IH (pre ++ [a])).
    rewrite length_app, <- app_assoc in IH. simpl in IH.
    rewrite Nat.add_1_r in IH. apply IH.
    intros j x Hj Hle. apply H; [exact Hj | lia]. }
  destruct (p a).
  - change (take (List.length pre :: ?r) ?xs)
      with ((match nth_error xs (List.length pre) with
             | Some x => [x] | None => [] end) ++ take r xs).
    now rewrite Ha, Hrest.
  - exact Hrest.
Qed.

Lemma take_filter_index (q : nat -> bool) (p : nat -> bool) (l : list nat) :
  (forall j i, nth_error l j = Some i -> q j = p i) ->
  take (filter q (seq 0 (List.length l))) l = filter p l.
Proof.
  intros H. apply (take_filter_seq q p [] l).
  intros j x Hj _. now apply H.
Qed.

Lemma filter_absorb {A : Type} (p q : A -> bool) (l : list A) :
  (forall a, p a = true -> q a = true) ->
  filter p (filter q l) = filter p l.
Proof.
  intros H. induction l as [|a l IH]; simpl; [reflexivity|].
  destruct (q a) eqn:Hq; simpl.
  - now rewrite IH.
  - destruct (p a) eqn:Hp; [|exact IH].
    rewrite (H a Hp) in Hq. discriminate.
Qed.

Lemma take_length_valid {A : Type} (r : list nat) (xs : list A) :
  (forall i, In i r -> (i < List.length xs)%nat) ->
  List.length (take r xs) = List.length r.
Proof. apply take_length. Qed.

(** Columns under a selection of rows. *)

Lemma raw_len_take_rows (r : list nat) (c : raw_column) :
  (forall i, In i r -> (i < raw_len c)%nat) ->
  raw_len (take_rows r c) = List.length r.
Proof. destruct c; simpl; apply take_length. Qed.

Lemma isna_take_rows (r : list nat) (c : raw_column) (j : nat) :
  (forall i, In i r -> (i < raw_len c)%nat) ->
  isna (take_rows r c) j
  = match nth_error r j with Some i => isna c i | None => false end.
Proof.
  intros Hv. destruct c as [xs|xs]; simpl in *;
    rewrite (nth_error_take r xs j Hv); now destruct (nth_error r j).
Qed.

Lemma complete_take_rows (r : list nat) (c : raw_column) (j : nat) :
  (forall i, In i r -> (i < raw_len c)%nat) ->
  complete (take_rows r c) j
  = match nth_error r j with Some i => complete c i | None => false end.
Proof.
  intros Hv. destruct c as [xs|xs]; simpl in *;
    rewrite (nth_error_take r xs j Hv); now destruct (nth_error r j).
Qed.

Lemma take_rows_take_rows (r1 r2 : list nat) (c : raw_column) :
  (forall i, In i r1 -> (i < raw_len c)%nat) ->
  take_rows r2 (take_rows r1 c) = take_rows (take r2 r1) c.
Proof.
  intros Hv. destruct c as [xs|xs]; simpl in *; now rewrite take_take.
Qed.

Lemma replace_inf_take_rows (r : list nat) (c : raw_column) :
  replace_inf_column (take_rows r c) = take_rows r (replace_inf_column c).
Proof. destruct c as [xs|xs]; simpl; [now rewrite take_map | reflexivity]. Qed.

Lemma raw_len_replace_inf (c : raw_column) :
  raw_len (replace_inf_column c) = raw_len c.
Proof. destruct c; simpl; [apply length_map | reflexivity]. Qed.

Lemma complete_replace_inf (c : raw_column) (i : nat) :
  complete (replace_inf_column c) i = complete c i.
Proof.
  destruct c as [xs|xs]; simpl; [|reflexivity].
  rewrite nth_error_map. destruct (nth_error xs i) as [[x| | |]|]; reflexivity.
Qed.

Lemma complete_not_na (c : raw_column) (i : nat) :
  complete c i = true -> isna c i = false.
Proof.
  destruct c as [xs|xs]; simpl.
  - destruct (nth_error xs i) as [[x| | |]|]; congruence.
  - destruct (nth_error xs i) as [[s|]|]; congruence.
Qed.

Lemma finite_values_take (rows r : list nat) (xs : list float64) :
  (forall i, In i r -> (i < List.length xs)%nat) ->
  finite_values rows (take r xs) = finite_values (take rows r) xs.
Proof.
  intros Hv. induction rows as [|j rows IH]; [reflexivity|].
  change (take (j :: rows) r)
    with ((match nth_error r j with Some x => [x] | None => [] end)
          ++ take rows r).
  unfold finite_values in *. simpl flat_map. rewrite flat_map_app, IH.
  f_equal. rewrite (nth_error_take r xs j Hv).
  destruct (nth_error r j) as [i|]; [|reflexivity].
  simpl. now rewrite app_nil_r.
Qed.

Lemma present_values_take (rows r : list nat) (xs : list (option string)) :
  (forall i, In i r -> (i < List.length xs)%nat) ->
  present_values rows (take r xs) = present_values (take rows r) xs.
Proof.
  intros Hv. induction rows as [|j rows IH]; [reflexivity|].
  change (take (j :: rows) r)
    with ((match nth_error r j with Some x => [x] | None => [] end)
          ++ take rows r).
  unfold present_values in *. simpl flat_map. rewrite flat_map_app, IH.
  f_equal. rewrite (nth_error_take r xs j Hv).
  destruct (nth_error r j) as [i|]; [|reflexivity].
  simpl. now rewrite app_nil_r.
Qed.

Lemma typed_column_take_rows (rows r : list nat) (c : raw_column) :
  (forall i, In i r -> (i < raw_len c)%nat) ->
  typed_column rows (take_rows r c) = typed_column (take rows r) c.
Proof.
  intros Hv. destruct c as [xs|xs]; simpl in *.
  - now rewrite finite_values_take.
  - now rewrite present_values_take.
Qed.

Lemma typed_column_replace_inf (rows : list nat) (c : raw_column) :
  typed_column rows (replace_inf_column c) = typed_column rows c.
Proof.
  destruct c as [xs|xs]; simpl; [|reflexivity]. f_equal.
  unfold finite_values. apply flat_map_ext. intros i.
  rewrite nth_error_map. destruct (nth_error xs i) as [[x| | |]|]; reflexivity.
Qed.

(** Frames under a selection of rows. *)

Lemma dropna_select (df : RawFrame) :
  dropna df
  = select_rows (filter (fun i => negb (has_na df i)) (seq 0 (raw_nrows df)))
                df.
Proof. reflexivity. Qed.

Lemma replace_inf_columns (df : RawFrame) :
  replace_inf df = map (fun nc => (fst nc, replace_inf_column (snd nc))) df.
Proof. reflexivity. Qed.

Lemma values_columns (df : RawFrame) :
  values df
  = map (fun nc => (fst nc, typed_column (complete_rows df) (snd nc))) df.
Proof. reflexivity. Qed.

Lemma rows_valid_filter (p : nat -> bool) (df : RawFrame) :
  well_formed df ->
  rows_valid (filter p (seq 0 (raw_nrows df))) df.
Proof.
  intros Hwf nc Hnc i Hi. apply filter_In in Hi. destruct Hi as [Hi _].
  apply in_seq in Hi. rewrite (Hwf nc Hnc). lia.
Qed.

Lemma rows_valid_sub (p : nat -> bool) (r : list nat) (df : RawFrame) :
  rows_valid r df -> rows_valid (filter p r) df.
Proof.
  intros H nc Hnc i Hi. apply filter_In in Hi. now apply (H nc Hnc).
Qed.

Lemma rows_valid_replace_inf (r : list nat) (df : RawFrame) :
  rows_valid r df -> rows_valid r (replace_inf df).
Proof.
  intros H nc Hnc i Hi. rewrite replace_inf_columns in Hnc.
  apply in_map_iff in Hnc. destruct Hnc as [nc' [<- Hnc']]. simpl.
  rewrite raw_len_replace_inf. now apply (H nc' Hnc').
Qed.

Lemma raw_nrows_select (r : list nat) (df : RawFrame) :
  df <> [] -> rows_valid r df ->
  raw_nrows (select_rows r df) = List.length r.
Proof.
  intros Hne Hv. destruct df as [|[n c] df]; [congruence|].
  simpl. apply raw_len_take_rows. intros i Hi.
  apply (Hv (n, c)); [now left | exact Hi].
Qed.

Lemma has_na_select (r : list nat) (df : RawFrame) (j i : nat) :
  rows_valid r df -> nth_error r j = Some i ->
  has_na (select_rows r df) j = has_na df i.
Proof.
  intros Hv Hj. unfold has_na, select_rows.
  induction df as [|nc df IH]; [reflexivity|].
  simpl. rewrite isna_take_rows, Hj by (apply (Hv nc); now left).
  f_equal. apply IH. intros nc' Hnc'. apply Hv. now right.
Qed.

Lemma all_complete_select (r : list nat) (df : RawFrame) (j i : nat) :
  rows_valid r df -> nth_error r j = Some i ->
  all_complete (select_rows r df) j = all_complete df i.
Proof.
  intros Hv Hj. unfold all_complete, select_rows.
  induction df as [|nc df IH]; [reflexivity|].
  simpl. rewrite complete_take_rows, Hj by (apply (Hv nc); now left).
  f_equal. apply IH. intros nc' Hnc'. apply Hv. now right.
Qed.

Lemma select_select (r1 r2 : list nat) (df : RawFrame) :
  rows_valid r1 df ->
  select_rows r2 (select_rows r1 df) = select_rows (take r2 r1) df.
Proof.
  intros Hv. unfold select_rows. rewrite map_map. apply map_ext_in.
  intros nc Hnc. simpl. f_equal. apply take_rows_take_rows.
  now apply (Hv nc).
Qed.

Lemma replace_inf_select (r : list nat) (df : RawFrame) :
  replace_inf (select_rows r df) = select_rows r (replace_inf df).
Proof.
  unfold replace_inf, select_rows. rewrite !map_map.
  apply map_ext. intros [n c]. cbn [fst snd]. f_equal.
  exact (replace_inf_take_rows r c).
Qed.

Lemma all_complete_replace_inf (df : RawFrame) (i : nat) :
  all_complete (replace_inf df) i = all_complete df i.
Proof.
  rewrite replace_inf_columns. unfold all_complete.
  induction df as [|nc df IH]; [reflexivity|].
  simpl. now rewrite complete_replace_inf, IH.
Qed.

Lemma all_complete_no_na (df : RawFrame) (i : nat) :
  all_complete df i = true -> has_na df i = false.
Proof.
  unfold all_complete, has_na. induction df as [|nc df IH]; simpl;
    [reflexivity|].
  intros H. apply andb_true_iff in H. destruct H as [H1 H2].
  now rewrite (complete_not_na _ _ H1), IH.
Qed.

(** Lines 49-50 and 125-126 keep exactly the complete rows: on a frame
    whose columns all have one length, dropping the rows with a missing
    value, turning infinities into missing values and dropping again leaves
    the rows in which every number is finite and every object is present, in
    their order, and nothing else; no column is added or removed. *)
Theorem cleaning_keeps_the_complete_rows (data : RawFrame) :
  well_formed data ->
  drop_missing_and_infinite data
  = map (fun nc => (fst nc, typed_column (complete_rows data) (snd nc))) data.
Proof.
  intros Hwf. unfold drop_missing_and_infinite.
  destruct data as [|nc0 data0] eqn:Edata; [reflexivity|].
  rewrite <- Edata in *.
  assert (data <> []) as Hne by (rewrite Edata; discriminate).
  clear Edata nc0 data0.
  set (k1 := filter (fun i => negb (has_na data i))
                    (seq 0 (raw_nrows data))).
  assert (rows_valid k1 data) as Hv1 by now apply rows_valid_filter.
  rewrite (dropna_select data). fold k1.
  rewrite replace_inf_select.
  set (data' := replace_inf data).
  assert (data' <> []) as Hne'.
  { unfold data'. rewrite replace_inf_columns.
    destruct data; [congruence | discriminate]. }
  assert (rows_valid k1 data') as Hv1' by now apply rows_valid_replace_inf.
  rewrite dropna_select, (raw_nrows_select k1 data' Hne' Hv1').
  rewrite (select_select k1 _ data' Hv1').
  rewrite (take_filter_index _ (fun i => negb (has_na data' i)));
    [|intros j i Hj; now rewrite (has_na_select k1 data' j i Hv1' Hj)].
  set (k2 := filter (fun i => negb (has_na data' i)) k1).
  assert (rows_valid k2 data') as Hv2 by now apply rows_valid_sub.
  rewrite values_columns. unfold complete_rows at 1.
  rewrite (raw_nrows_select k2 data' Hne' Hv2).
  assert (take (filter (all_complete (select_rows k2 data'))
                       (seq 0 (List.length k2))) k2
          = complete_rows data) as Hrows.
  { rewrite (take_filter_index _ (all_complete data'));
      [|intros j i Hj; now apply all_complete_select].
    unfold k2, k1, complete_rows.
    rewrite (filter_ext (all_complete data') (all_complete data))
      by (intros i; apply all_complete_replace_inf).
    rewrite filter_absorb.
    - apply filter_absorb. intros i Hi.
      now rewrite (all_complete_no_na data i Hi).
    - intros i Hi. rewrite <- all_complete_replace_inf in Hi.
      fold data' in Hi. now rewrite (all_complete_no_na data' i Hi). }
  set (rows3 := filter (all_complete (select_rows k2 data'))
                       (seq 0 (List.length k2))) in *.
  unfold select_rows. rewrite map_map. cbn [fst snd].
  unfold data'. rewrite replace_inf_columns, map_map. cbn [fst snd].
  apply map_ext_in. intros nc Hnc. f_equal.
  rewrite typed_column_take_rows.
  - rewrite Hrows. apply typed_column_replace_inf.
  - intros i Hi. rewrite raw_len_replace_inf.
    assert (rows_valid k2 data) as Hv2d.
    { unfold k2. now apply rows_valid_sub. }
    now apply (Hv2d nc Hnc).
Qed.

Lemma cleaning_keeps_the_complete_rows_witness :
  drop_missing_and_infinite table_with_gaps
  = map (fun nc =>
           (fst nc, typed_column (complete_rows table_with_gaps) (snd nc)))
        table_with_gaps.
Proof.
  apply (cleaning_keeps_the_complete_rows table_with_gaps).
  intros nc [<-|[<-|[]]]; reflexivity.
Defined.

Lemma cleaning_table_with_gaps :
  complete_rows table_with_gaps = [0%nat] /\
  drop_missing_and_infinite table_with_gaps
  = [("amount", NumCol [1%R]); ("address_state", StrCol ["NY"])].
Proof. split; reflexivity. Qed.
